(** * The AEP catalog bridge ([catalog/python_bridge.py])

    A shallow embedding of [AEPCatalogBridge]: the conversion of the
    engine's raw metadata to the mobot catalog format, the report
    aggregation, and the cached, temp-file based invocation of the
    external parser together with the directory batch.

    Python values are the values [json.load] produces.  Numbers are the
    integers ([Z]); non-integer numbers are outside the model.  A string
    is a sequence of code points below 256. *)

From stdpp Require Import base option list strings gmap pretty.

Open Scope Z_scope.
Open Scope string_scope.

(** ** Python values and exceptions *)

(** A [dict] is kept as its items in insertion order (the order
    [json.dump] writes them in); reading a key takes its first item. *)
#[warnings="-register-all"]
Inductive json :=
  | JNull
  | JBool (b : bool)
  | JInt (n : Z)
  | JStr (s : string)
  | JList (l : list json)
  | JDict (d : list (string * json)).

Inductive exn :=
  | KeyError (k : string)
  | TypeError
  | AttributeError
  | FileNotFoundError (msg : string)
  | RuntimeError (msg : string)
  | JSONDecodeError (msg : string)
  | OSError (msg : string).

Inductive result (A : Type) :=
  | Ok (a : A)
  | Raise (e : exn).
Arguments Ok {A} a.
Arguments Raise {A} e.

(** Sequencing stops at the first exception. *)
Global Instance result_bind : MBind result := λ A B k r,
  match r with
  | Ok a => k a
  | Raise e => Raise e
  end.

(** [for x in xs: ...] collecting one result per element, stopping at the
    first exception. *)
Fixpoint for_each {A B} (f : A → result B) (xs : list A) : result (list B) :=
  match xs with
  | [] => Ok []
  | x :: xs' => y ← f x; ys ← for_each f xs'; Ok (y :: ys)
  end.

(** The first item stored under [k]. *)
Fixpoint assoc (k : string) (d : list (string * json)) : option json :=
  match d with
  | [] => None
  | (k', v) :: d' => if String.eqb k k' then Some v else assoc k d'
  end.

(** The keys of a dict, each once. *)
Definition dict_keys (d : list (string * json)) : list string :=
  remove_dups (d.*1).

(** [v[k]] for a string key [k]. *)
Definition getitem (v : json) (k : string) : result json :=
  match v with
  | JDict d =>
      match assoc k d with
      | Some x => Ok x
      | None => Raise (KeyError k)
      end
  | _ => Raise TypeError
  end.

(** [v.get(k, dflt)]: only a dict has the method. *)
Definition dict_get (v : json) (k : string) (dflt : json) : result json :=
  match v with
  | JDict d => Ok (default dflt (assoc k d))
  | _ => Raise AttributeError
  end.

Definition chars (s : string) : list json :=
  (λ c, JStr (String c EmptyString)) <$> String.list_ascii_of_string s.

(** [iter(v)]: the elements of a list, the keys of a dict, the characters
    of a string. *)
Definition iter (v : json) : result (list json) :=
  match v with
  | JList l => Ok l
  | JDict d => Ok (JStr <$> dict_keys d)
  | JStr s => Ok (chars s)
  | _ => Raise TypeError
  end.

(** [len(v)]. *)
Definition len (v : json) : result Z :=
  match v with
  | JList l => Ok (Z.of_nat (length l))
  | JDict d => Ok (Z.of_nat (length (dict_keys d)))
  | JStr s => Ok (Z.of_nat (String.length s))
  | _ => Raise TypeError
  end.

(** [acc + v] for an integer [acc], as [sum] computes it. *)
Definition add (acc : Z) (v : json) : result Z :=
  match v with
  | JInt n => Ok (acc + n)
  | JBool b => Ok (acc + Z.b2z b)
  | _ => Raise TypeError
  end.

(** [bool(v)]. *)
Definition truthy (v : json) : bool :=
  match v with
  | JNull => false
  | JBool b => b
  | JInt n => negb (Z.eqb n 0)
  | JStr s => negb (String.eqb s "")
  | JList l => match l with [] => false | _ => true end
  | JDict d => match d with [] => false | _ => true end
  end.

(** A [result] that is a value. *)
Definition returns {A} (r : result A) : Prop := ∃ a, r = Ok a.

(** ** FormatConverter: [convert_to_mobot_format] *)

(** The output key and the raw flag it is read from, in the order of the
    [capabilities] literal. *)
Definition capability_flags : list (string * string) :=
  [ ("text_replacement", "has_text_replacement");
    ("image_replacement", "has_image_replacement");
    ("color_control", "has_color_control");
    ("audio_replacement", "has_audio_replacement");
    ("data_driven", "has_data_driven");
    ("expressions", "has_expressions");
    ("modular", "is_modular") ].

Definition capability_keys : list string := capability_flags.*1.

(** [sum(f(c) for c in cs)], starting from the integer [acc]. *)
Fixpoint py_sum (f : json → result json) (cs : list json) (acc : Z) : result Z :=
  match cs with
  | [] => Ok acc
  | c :: cs' => v ← f c; acc' ← add acc v; py_sum f cs' acc'
  end.

Definition capability (metadata : json) (kf : string * string)
    : result (string * json) :=
  caps ← getitem metadata "capabilities";
  v ← getitem caps kf.2;
  Ok (kf.1, v).

Definition text_layer (t : json) : result json :=
  name ← getitem t "layer_name";
  text ← getitem t "source_text";
  comp ← getitem t "comp_id";
  Ok (JDict [("name", name); ("default_text", text); ("comp", comp)]).

Definition media_placeholder (m : json) : result json :=
  name ← getitem m "name";
  type ← getitem m "type";
  flag ← getitem m "is_placeholder";
  Ok (JDict [("name", name); ("type", type); ("placeholder", flag)]).

(** [[media_placeholder(m) for m in ms if m["is_placeholder"]]]: the
    condition is evaluated first, the element only when it holds. *)
Fixpoint media_placeholders (ms : list json) : result (list json) :=
  match ms with
  | [] => Ok []
  | m :: ms' =>
      flag ← getitem m "is_placeholder";
      if truthy flag
      then p ← media_placeholder m;
           ps ← media_placeholders ms';
           Ok (p :: ps)
      else media_placeholders ms'
  end.

Definition usage_scenario (o : json) : result json :=
  type ← getitem o "type";
  description ← getitem o "description";
  difficulty ← getitem o "difficulty";
  impact ← getitem o "impact";
  Ok (JDict [("type", type); ("description", description);
             ("difficulty", difficulty); ("impact", impact)]).

Section Converter.
(** [repr] of a list or dict, as an f-string field prints it. *)
Variable container_repr : json → string.

(** The order in which the interpreter iterates over [set(xs)]: it
    depends on the hashes of the strings, which are salted per process. *)
Variable set_iter : list string → list string.

(** [format(v, "")], the text an f-string field [{v}] expands to. *)
Definition py_format (v : json) : string :=
  match v with
  | JNull => "None"
  | JBool true => "True"
  | JBool false => "False"
  | JInt n => pretty n
  | JStr s => s
  | _ => container_repr v
  end.

(** [f"{c['width']}x{c['height']}"]. *)
Definition resolution (c : json) : result string :=
  w ← getitem c "width";
  h ← getitem c "height";
  Ok (py_format w +:+ "x" +:+ py_format h).

Definition convert_to_mobot_format (metadata : json) : result json :=
  file_path ← getitem metadata "file_path";
  file_name ← getitem metadata "file_name";
  parsed_at ← getitem metadata "parsed_at";
  comps ← getitem metadata "compositions";
  n_comps ← len comps;
  comps ← getitem metadata "compositions";
  cs ← iter comps;
  total_layers ← py_sum (λ c, getitem c "layer_count") cs 0;
  capabilities ← for_each (capability metadata) capability_flags;
  categories ← getitem metadata "categories";
  tags ← getitem metadata "tags";
  tls ← getitem metadata "text_layers";
  ts ← iter tls;
  text_layers ← for_each text_layer ts;
  mas ← getitem metadata "media_assets";
  ms ← iter mas;
  placeholders ← media_placeholders ms;
  opps ← getitem metadata "opportunities";
  os ← iter opps;
  usage_scenarios ← for_each usage_scenario os;
  bit_depth ← getitem metadata "bit_depth";
  expression_engine ← getitem metadata "expression_engine";
  effs ← getitem metadata "effects";
  es ← iter effs;
  effects_used ← for_each (λ e, getitem e "name") es;
  comps ← getitem metadata "compositions";
  cs ← iter comps;
  rs ← for_each resolution cs;
  Ok (JDict
    [ ("template_path", file_path);
      ("template_name", file_name);
      ("analyzed_at", parsed_at);
      ("compositions", JInt n_comps);
      ("total_layers", JInt total_layers);
      ("capabilities", JDict capabilities);
      ("categories", categories);
      ("tags", tags);
      ("customizable_elements", JDict
         [ ("text_layers", JList text_layers);
           ("media_placeholders", JList placeholders) ]);
      ("usage_scenarios", JList usage_scenarios);
      ("technical_details", JDict
         [ ("bit_depth", bit_depth);
           ("expression_engine", expression_engine);
           ("effects_used", JList effects_used);
           ("resolutions", JList (JStr <$> set_iter rs)) ]) ]).
End Converter.

(** What the language promises of [list(set(xs))]: every element of [xs],
    once each, in some order. *)
Definition set_semantics (set_iter : list string → list string) : Prop :=
  ∀ xs, NoDup (set_iter xs) ∧ ∀ x, x ∈ set_iter xs ↔ x ∈ xs.

(** Two iteration orders a process can have: one of the distinct elements
    in the order of their last insertion, and the same reversed. *)
Definition set_forward (xs : list string) : list string := remove_dups xs.
Definition set_backward (xs : list string) : list string := reverse (remove_dups xs).

(** A [repr] for the examples, none of which formats a container. *)
Definition no_repr (v : json) : string := "".

Definition composition (name : string) (w h layers : Z) : json :=
  JDict [("name", JStr name); ("width", JInt w); ("height", JInt h);
         ("layer_count", JInt layers)].

Definition all_flags (b : bool) : json :=
  JDict ((λ kf : string * string, (kf.2, JBool b)) <$> capability_flags).

(** [del v[k]] on a dict. *)
Definition del_key (k : string) (v : json) : json :=
  match v with
  | JDict d => JDict (filter (λ kv, kv.1 ≠ k) d)
  | _ => v
  end.

(** A raw record with every key the converter reads, around the given
    capability flags. *)
Definition sample_with (capabilities : json) : json :=
  JDict
    [ ("file_path", JStr "/t/a.aep"); ("file_name", JStr "a.aep");
      ("parsed_at", JStr "2025-01-01T00:00:00Z");
      ("compositions", JList [composition "Main" 1920 1080 3;
                              composition "Alt" 1280 720 2;
                              composition "Main2" 1920 1080 1]);
      ("text_layers", JList [JDict [("layer_name", JStr "Title");
                                    ("source_text", JStr "Hello");
                                    ("comp_id", JInt 1)]]);
      ("media_assets", JList [JDict [("name", JStr "logo"); ("type", JStr "image");
                                     ("is_placeholder", JBool true)];
                              JDict [("name", JStr "bg"); ("type", JStr "video");
                                     ("is_placeholder", JBool false)]]);
      ("capabilities", capabilities);
      ("categories", JList [JStr "Intro"]); ("tags", JList [JStr "hd"]);
      ("opportunities", JList []);
      ("bit_depth", JInt 8); ("expression_engine", JStr "javascript");
      ("effects", JList [JDict [("name", JStr "Glow")]]) ].

Definition sample_raw : json := sample_with (all_flags true).

(** The entry the converter returns for it, when sets iterate forwards. *)
Definition sample_entry : json :=
  Eval vm_compute in
    match convert_to_mobot_format no_repr set_forward sample_raw with
    | Ok entry => entry
    | Raise _ => JNull
    end.

(** The same record when the engine left one flag out. *)
Definition sample_without_flag (flag : string) : json :=
  sample_with (del_key flag (all_flags true)).

(** The raw records the converter can read in full.  It subscripts every
    one of these keys, and no other. *)
Definition read_keys : list string :=
  [ "file_path"; "file_name"; "parsed_at"; "compositions"; "capabilities";
    "categories"; "tags"; "text_layers"; "media_assets"; "opportunities";
    "bit_depth"; "expression_engine"; "effects" ].

Definition has_key (k : string) (v : json) : bool :=
  match v with
  | JDict d => bool_decide (is_Some (assoc k d))
  | _ => false
  end.

Definition has_keys (ks : list string) (v : json) : bool :=
  forallb (λ k, has_key k v) ks.

(** [v[k]] exists and satisfies [p]. *)
Definition field (k : string) (p : json → bool) (v : json) : bool :=
  match v with
  | JDict d =>
      match assoc k d with
      | Some x => p x
      | None => false
      end
  | _ => false
  end.

Definition list_of (p : json → bool) (v : json) : bool :=
  match v with
  | JList l => forallb p l
  | _ => false
  end.

Definition is_count (v : json) : bool :=
  match v with
  | JInt _ | JBool _ => true
  | _ => false
  end.

Definition composition_ok (c : json) : bool :=
  field "layer_count" is_count c && has_keys ["width"; "height"] c.

(** [name] and [type] are read only from a placeholder. *)
Definition media_asset_ok (m : json) : bool :=
  field "is_placeholder"
    (λ flag, implb (truthy flag) (has_keys ["name"; "type"] m)) m.

Definition well_formed (metadata : json) : bool :=
  has_keys read_keys metadata
  && field "compositions" (list_of composition_ok) metadata
  && field "capabilities" (has_keys (capability_flags.*2)) metadata
  && field "text_layers"
       (list_of (has_keys ["layer_name"; "source_text"; "comp_id"])) metadata
  && field "media_assets" (list_of media_asset_ok) metadata
  && field "opportunities"
       (list_of (has_keys ["type"; "description"; "difficulty"; "impact"]))
       metadata
  && field "effects" (list_of (has_keys ["name"])) metadata.

(** Two entries that differ at most in the order of their [resolutions],
    the last key of [technical_details], itself the last key of an entry. *)
Definition same_up_to_resolution_order (entry1 entry2 : json) : Prop :=
  ∃ fields details rs1 rs2,
    entry1 = JDict (fields ++ [("technical_details",
               JDict (details ++ [("resolutions", JList (JStr <$> rs1))]))]) ∧
    entry2 = JDict (fields ++ [("technical_details",
               JDict (details ++ [("resolutions", JList (JStr <$> rs2))]))]) ∧
    rs1 ≡ₚ rs2 ∧ NoDup rs1 ∧ NoDup rs2.

(** *** What an entry is made of *)

(** The integer a layer count adds to the total. *)
Definition int_value (v : json) : Z :=
  match v with
  | JInt n => n
  | JBool b => Z.b2z b
  | _ => 0
  end.

(** The asset has an [is_placeholder] flag, and it holds. *)
Definition is_placeholder (m : json) : bool :=
  match getitem m "is_placeholder" with
  | Ok flag => truthy flag
  | Raise _ => false
  end.

(** The keys of an entry, in the order of the literal. *)
Definition entry_keys : list string :=
  [ "template_path"; "template_name"; "analyzed_at"; "compositions";
    "total_layers"; "capabilities"; "categories"; "tags";
    "customizable_elements"; "usage_scenarios"; "technical_details" ].

(** The keys under which the converter expects a list. *)
Definition list_fields : list string :=
  [ "compositions"; "text_layers"; "media_assets"; "opportunities"; "effects" ].

(** [d[k] = x]: in place when the key is there, at the end when not. *)
Fixpoint assoc_set (k : string) (x : json) (d : list (string * json))
    : list (string * json) :=
  match d with
  | [] => [(k, x)]
  | (k', v) :: d' =>
      if String.eqb k k' then (k, x) :: d' else (k', v) :: assoc_set k x d'
  end.

Definition set_key (k : string) (x : json) (v : json) : json :=
  match v with
  | JDict d => JDict (assoc_set k x d)
  | _ => v
  end.

(** A value that is no list, dict or string: [null], a boolean, a number. *)
Definition scalar (v : json) : bool :=
  match v with
  | JNull | JBool _ | JInt _ => true
  | _ => false
  end.

(** ** ReportGenerator: [generate_catalog_report] *)

(** The hashable values a dict can be keyed by.  [True] and [1] (and
    [False] and [0]) are the same key. *)
Inductive pykey :=
  | KNone
  | KInt (n : Z)
  | KStr (s : string).

Global Instance pykey_eq_dec : EqDecision pykey.
Proof. solve_decision. Defined.

Global Instance pykey_countable : Countable pykey.
Proof.
  refine (inj_countable'
    (λ k, match k with
          | KNone => inl ()
          | KInt n => inr (inl n)
          | KStr s => inr (inr s)
          end)
    (λ x, match x with
          | inl _ => KNone
          | inr (inl n) => KInt n
          | inr (inr s) => KStr s
          end) _).
  by intros [].
Defined.

(** The key [v] is stored under; a list or a dict is unhashable. *)
Definition hash_key (v : json) : result pykey :=
  match v with
  | JNull => Ok KNone
  | JBool b => Ok (KInt (Z.b2z b))
  | JInt n => Ok (KInt n)
  | JStr s => Ok (KStr s)
  | _ => Raise TypeError
  end.

(** [counts[k] = counts.get(k, 0) + 1]. *)
Definition increment (counts : gmap pykey Z) (k : pykey) : gmap pykey Z :=
  <[k := default 0 (counts !! k) + 1]> counts.

(** The inner loop: one increment per element of the entry's list. *)
Fixpoint count_values (vs : list json) (counts : gmap pykey Z)
    : result (gmap pykey Z) :=
  match vs with
  | [] => Ok counts
  | v :: vs' => k ← hash_key v; count_values vs' (increment counts k)
  end.

(** The loop shared by [_aggregate_categories] and [_aggregate_tags]. *)
Fixpoint aggregate (field : string) (catalog_data : list json)
    (counts : gmap pykey Z) : result (gmap pykey Z) :=
  match catalog_data with
  | [] => Ok counts
  | template :: rest =>
      listed ← dict_get template field (JList []);
      vs ← iter listed;
      counts' ← count_values vs counts;
      aggregate field rest counts'
  end.

Definition _aggregate_categories (catalog_data : list json) : result (gmap pykey Z) :=
  aggregate "categories" catalog_data ∅.

Definition _aggregate_tags (catalog_data : list json) : result (gmap pykey Z) :=
  aggregate "tags" catalog_data ∅.

(** [sum(1 for t in catalog_data
         if t.get("capabilities", {}).get(cap, False))]. *)
Fixpoint count_capability (cap : string) (catalog_data : list json) : result Z :=
  match catalog_data with
  | [] => Ok 0
  | t :: rest =>
      caps ← dict_get t "capabilities" (JDict []);
      flag ← dict_get caps cap (JBool false);
      n ← count_capability cap rest;
      Ok (Z.b2z (truthy flag) + n)
  end.

(** The [report] dict.  Its keys are fixed by the literal, so it is a
    record; [summary] stays a dict in insertion order. *)
Record report := {
  catalog_version : string;
  generated_at : string;
  total_templates : Z;
  parser : string;
  templates : list json;
  summary : list (string * Z);
  categories : gmap pykey Z;
  tags : gmap pykey Z
}.

(** The report [generate_catalog_report] builds, with [now] for
    [datetime.now().isoformat()].  Writing it to [output_path] and to the
    Markdown file beside it is not part of the model. *)
Definition generate_catalog_report (now : string) (catalog_data : list json)
    : result report :=
  with_text ← count_capability "text_replacement" catalog_data;
  with_image ← count_capability "image_replacement" catalog_data;
  modular ← count_capability "modular" catalog_data;
  cats ← _aggregate_categories catalog_data;
  tgs ← _aggregate_tags catalog_data;
  Ok {| catalog_version := "2.0";
        generated_at := now;
        total_templates := Z.of_nat (length catalog_data);
        parser := "Go-Python Bridge";
        templates := catalog_data;
        summary :=
          [ ("total_templates", Z.of_nat (length catalog_data));
            ("with_text_replacement", with_text);
            ("with_image_replacement", with_image);
            ("modular_templates", modular) ];
        categories := cats;
        tags := tgs |}.

(** [summary[k]]. *)
Fixpoint summary_get (k : string) (s : list (string * Z)) : option Z :=
  match s with
  | [] => None
  | (k', n) :: s' => if String.eqb k k' then Some n else summary_get k s'
  end.

(** An entry with the given categories and nothing else. *)
Definition entry_with_categories (cats : list string) : json :=
  JDict [("categories", JList (JStr <$> cats))].

(** An entry whose capability map holds the one flag [cap]. *)
Definition entry_with_capability (cap : string) (b : bool) : json :=
  JDict [("capabilities", JDict [(cap, JBool b)])].

(** The keys an entry lists under [field], as the loop counts them. *)
Definition listed (field : string) (template : json) : list pykey :=
  match (l ← dict_get template field (JList []); vs ← iter l; for_each hash_key vs) with
  | Ok ks => ks
  | Raise _ => []
  end.

(** How often [k] is listed under [field] in the whole catalog, and how
    many entries list it. *)
Definition occurrences (field : string) (k : pykey) (catalog_data : list json) : Z :=
  Z.of_nat (length (filter (λ k', k' = k) (mjoin (listed field <$> catalog_data)))).

Definition entries_listing (field : string) (k : pykey) (catalog_data : list json) : Z :=
  Z.of_nat (length (filter (λ t, k ∈ listed field t) catalog_data)).

(** The entries of the spec's aggregation example. *)
Definition example_entries : list json :=
  [ entry_with_categories ["A"; "B"];
    entry_with_categories ["A"];
    entry_with_categories ["B"; "C"] ].

(** The capability flag [cap] of the entry [t] holds: what the spec counts
    in the summary.  An entry without the flag, or without a capability
    map, does not have it. *)
Definition flag_set (cap : string) (t : json) : bool :=
  match t with
  | JDict d =>
      match default (JDict []) (assoc "capabilities" d) with
      | JDict caps => truthy (default (JBool false) (assoc cap caps))
      | _ => false
      end
  | _ => false
  end.

(** The number of entries whose flag [cap] holds. *)
Definition entries_with (cap : string) (catalog_data : list json) : Z :=
  Z.of_nat (length (filter (λ t, flag_set cap t = true) catalog_data)).

Definition hashable (v : json) : bool :=
  match v with
  | JList _ | JDict _ => false
  | _ => true
  end.

(** What is listed under [field], if anything, can be counted. *)
Definition listing_ok (field : string) (d : list (string * json)) : bool :=
  match iter (default (JList []) (assoc field d)) with
  | Ok vs => forallb hashable vs
  | Raise _ => false
  end.

(** The entries a report can be generated from: dicts whose capabilities,
    when present, are a dict, and whose categories and tags can be counted. *)
Definition entry_ok (t : json) : bool :=
  match t with
  | JDict d =>
      match default (JDict []) (assoc "capabilities" d) with
      | JDict _ => true
      | _ => false
      end
      && listing_ok "categories" d && listing_ok "tags" d
  | _ => false
  end.

(** The raw record stores the capability flag [flag], and it holds. *)
Definition raw_flag (flag : string) (metadata : json) : bool :=
  match (caps ← getitem metadata "capabilities"; getitem caps flag) with
  | Ok v => truthy v
  | Raise _ => false
  end.

(** The number of raw records whose flag [flag] holds. *)
Definition records_with (flag : string) (catalog_data : list json) : Z :=
  Z.of_nat (length (filter (λ m, raw_flag flag m = true) catalog_data)).

(** The raw records from which a report can be made: complete, with
    categories and tags that can be counted. *)
Definition reportable (metadata : json) : bool :=
  well_formed metadata &&
  match metadata with
  | JDict d => listing_ok "categories" d && listing_ok "tags" d
  | _ => false
  end.

(** ** EngineInvoker, ResultCache and CatalogAggregator *)

(** How a [subprocess.run] ended: the process exited with a return code,
    or it could not be started. *)
Inductive proc :=
  | Exited (code : Z) (out err : string)
  | SpawnFailed (msg : string).

(** The line [print(f"Error parsing {aep_file}: {e}")] writes. *)
Inductive line :=
  | ErrorParsing (aep_file : string) (e : exn).

(** What the bridge reads and writes: its [cache] dict, the files on disk
    (path to contents), the argument vectors of the engine processes it
    has run, and the lines it has printed. *)
Record world := {
  cache : gmap string json;
  files : gmap string string;
  invocations : list (list string);
  console : list line
}.

Definition with_cache (c : gmap string json) (w : world) : world :=
  {| cache := c; files := files w;
     invocations := invocations w; console := console w |}.

Definition with_files (fs : gmap string string) (w : world) : world :=
  {| cache := cache w; files := fs;
     invocations := invocations w; console := console w |}.

Definition invoked (argv : list string) (w : world) : world :=
  {| cache := cache w; files := files w;
     invocations := invocations w ++ [argv]; console := console w |}.

Definition print (l : line) (w : world) : world :=
  {| cache := cache w; files := files w;
     invocations := invocations w; console := console w ++ [l] |}.


(** The records of the files that were parsed, and the error lines of the
    files that were not. *)
Fixpoint successes (os : list (string * result json)) : list json :=
  match os with
  | [] => []
  | (_, Ok metadata) :: os' => metadata :: successes os'
  | (_, Raise _) :: os' => successes os'
  end.

Fixpoint failures (os : list (string * result json)) : list line :=
  match os with
  | [] => []
  | (_, Ok _) :: os' => failures os'
  | (aep_file, Raise e) :: os' => ErrorParsing aep_file e :: failures os'
  end.

(** *** A stand-in engine, for examples

    It fails on a file whose text is [crash]; of any other file it writes
    the text to its output.  Paths are already resolved. *)
Definition echo_engine (argv : list string) (fs : gmap string string)
    : proc * gmap string string :=
  match argv with
  | [_; _; input; _; output] =>
      match fs !! input with
      | Some "crash" => (Exited 1 "" "cannot read project", fs)
      | Some text => (Exited 0 "" "", <[output := text]> fs)
      | None => (Exited 1 "" "no such file", fs)
      end
  | _ => (Exited 2 "" "usage", fs)
  end.

(** A decoder that knows three texts. *)
Definition decode (text : string) : result json :=
  if String.eqb text "sample" then Ok sample_raw
  else if String.eqb text "alt" then Ok (sample_with (all_flags false))
  else if String.eqb text "{}" then Ok (JDict [])
  else Raise (JSONDecodeError "Expecting value").

(** An enumeration that finds the given files. *)
Definition found (aep_files : list string)
    : string → string → gmap string string → list string :=
  λ _ _ _, aep_files.

(** A resolution under which [./a.aep] and [a.aep] name the same file. *)
Definition strip_dot (p : string) : string :=
  if String.prefix "./" p
  then String.substring 2 (String.length p - 2) p
  else p.

Definition on_disk (fs : list (string * string)) : world :=
  {| cache := ∅; files := list_to_map fs; invocations := []; console := [] |}.

(** A stand-in [go build]: it writes the executable and exits with the
    given status.  Directories can always be made. *)
Definition go_exits (code : Z) (argv : list string) (cwd : string)
    (fs : gmap string string) : proc * gmap string string :=
  match argv with
  | [_; _; _; output; _] => (Exited code "" "", <[output := "ELF"]> fs)
  | _ => (Exited 2 "" "usage", fs)
  end.

Definition mkdir_ok (parents : bool) (path : string)
    (fs : gmap string string) : option exn := None.

Definition exit_status (argv : list string) (code : Z) : string :=
  "exit status " +:+ pretty code.

(** *** The bridge itself *)

Section Bridge.
(** [self.go_parser_path]. *)
Variable go_parser_path : string.

(** [str(Path(p).resolve())]: the absolute path with [.], [..] and
    symbolic links resolved. *)
Variable resolve : string → string.

(** The engine process: from its argument vector and the files it finds,
    how it ends and the files it leaves. *)
Variable engine : list string → gmap string string → proc * gmap string string.

(** [json.load] on the text of a file. *)
Variable json_load : string → result json.

(** [directory.rglob(pattern)] over the files on disk. *)
Variable rglob : string → string → gmap string string → list string.

(** The name [NamedTemporaryFile] picks: one no file has. *)
Definition tmp_name (w : world) : string := fresh (dom (files w)).

(** The arguments the engine is run with. *)
Definition argv_for (aep_path tmp_path : string) : list string :=
  [go_parser_path; "-file"; aep_path; "-output"; tmp_path].

(** The body of the [try]: run the engine, read its output, cache it. *)
Definition run_parser (aep_path tmp_path cache_key : string)
    (use_cache : bool) (w : world) : result json * world :=
  let argv := argv_for aep_path tmp_path in
  let '(p, fs) := engine argv (files w) in
  let w := with_files fs (invoked argv w) in
  match p with
  | SpawnFailed msg => (Raise (OSError msg), w)
  | Exited code out err =>
      if Z.eqb code 0 then
        match files w !! tmp_path with
        | None => (Raise (FileNotFoundError tmp_path), w)
        | Some text =>
            match json_load text with
            | Raise e => (Raise e, w)
            | Ok metadata =>
                (Ok metadata,
                 if use_cache
                 then with_cache (<[cache_key := metadata]> (cache w)) w
                 else w)
            end
        end
      else (Raise (RuntimeError ("Go parser failed: " +:+ err)), w)
  end.

(** The [finally]: [if os.path.exists(tmp_path): os.unlink(tmp_path)]. *)
Definition cleanup (tmp_path : string) (w : world) : world :=
  if decide (tmp_path ∈ dom (files w))
  then with_files (delete tmp_path (files w)) w
  else w.

Definition parse_aep (aep_path : string) (use_cache : bool) (w : world)
    : result json * world :=
  let aep_path := resolve aep_path in
  if decide (aep_path ∈ dom (files w)) then
    let cache_key := aep_path in
    match (if use_cache then cache w !! cache_key else None) with
    | Some metadata => (Ok metadata, w)
    | None =>
        let tmp_path := tmp_name w in
        let w := with_files (<[tmp_path := ""]> (files w)) w in
        let '(r, w) := run_parser aep_path tmp_path cache_key use_cache w in
        (r, cleanup tmp_path w)
    end
  else (Raise (FileNotFoundError ("AEP file not found: " +:+ aep_path)), w).

(** The loop of [catalog_directory] over the enumerated files. *)
Fixpoint catalog_files (aep_files : list string) (results : list json)
    (w : world) : list json * world :=
  match aep_files with
  | [] => (results, w)
  | aep_file :: rest =>
      match parse_aep aep_file true w with
      | (Ok metadata, w) => catalog_files rest (results ++ [metadata]) w
      | (Raise e, w) => catalog_files rest results (print (ErrorParsing aep_file e) w)
      end
  end.

Definition catalog_directory (directory pattern : string) (w : world)
    : list json * world :=
  catalog_files (rglob directory pattern (files w)) [] w.

(** How [parse_aep] ends for each file of a batch, in the world the
    files before it have left. *)
Fixpoint outcomes (aep_files : list string) (w : world)
    : list (string * result json) :=
  match aep_files with
  | [] => []
  | aep_file :: rest =>
      match parse_aep aep_file true w with
      | (Ok metadata, w) => (aep_file, Ok metadata) :: outcomes rest w
      | (Raise e, w) =>
          (aep_file, Raise e) :: outcomes rest (print (ErrorParsing aep_file e) w)
      end
  end.

(** *** The [report] command *)

(** What [repr] and [set] do in the process, for the converter. *)
Variable container_repr : json → string.
Variable set_iter : list string → list string.

(** [[bridge.convert_to_mobot_format(m) for m in catalog_data]]. *)
Definition convert_all (catalog_data : list json) : result (list json) :=
  for_each (convert_to_mobot_format container_repr set_iter) catalog_data.

(** The [report] branch of the command line, up to the report it hands to
    be written: catalog the directory, convert every record, generate. *)
Definition report_command (path now : string) (w : world)
    : result report * world :=
  let '(catalog_data, w) := catalog_directory path "*.aep" w in
  (catalog_data ← convert_all catalog_data;
   generate_catalog_report now catalog_data, w).

(** *** EngineLocator: [_find_go_parser] and [_build_go_parser]

    Only regular files are on the [files] map; what making a directory
    does depends on directories and permissions, which are not, so it is
    taken as given.  The build is logged with the processes run. *)

(** [str(Path(__file__).parent)], the directory of the module, and its
    parent. *)
Variable parser_dir : string.
Variable repo_dir : string.

(** The Go source [_create_parser_command] writes to [main.go]. *)
Variable main_go : string.

(** [subprocess.run(argv, check=True, cwd=cwd)] for the build. *)
Variable go_build
  : list string → string → gmap string string → proc * gmap string string.

(** [path.mkdir(parents=parents, exist_ok=True)]: the exception it raises,
    if any. *)
Variable mkdir : bool → string → gmap string string → option exn.

(** [str(e)] for the [CalledProcessError] of a command and its exit status. *)
Variable describe : list string → Z → string.

(** [dir / name], for a directory other than the root. *)
Definition join (dir name : string) : string := dir +:+ "/" +:+ name.

Definition possible_paths : list string :=
  [ join parser_dir "aep_parser";
    join (join parser_dir "bin") "aep_parser";
    join repo_dir "aep_parser";
    join (join repo_dir "bin") "aep_parser" ].

Definition parser_main : string :=
  join (join (join parser_dir "cmd") "parser") "main.go".

Definition output_path : string := join (join parser_dir "bin") "aep_parser".

Definition build_argv : list string :=
  ["go"; "build"; "-o"; output_path; parser_main].

Definition _create_parser_command (w : world) : result () * world :=
  let cmd_dir := join (join parser_dir "cmd") "parser" in
  match mkdir true cmd_dir (files w) with
  | Some e => (Raise e, w)
  | None => (Ok (), with_files (<[join cmd_dir "main.go" := main_go]> (files w)) w)
  end.

(** The files the build starts from: [main.go] is written when it is not
    there, and left alone when it is. *)
Definition with_source (fs : gmap string string) : gmap string string :=
  if decide (parser_main ∈ dom fs) then fs else <[parser_main := main_go]> fs.

Definition _build_go_parser (w : world) : result string * world :=
  let '(made, w) :=
    if decide (parser_main ∈ dom (files w))
    then (Ok (), w)
    else _create_parser_command w in
  match made with
  | Raise e => (Raise e, w)
  | Ok _ =>
      match mkdir false (join parser_dir "bin") (files w) with
      | Some e => (Raise e, w)
      | None =>
          let '(p, fs) := go_build build_argv repo_dir (files w) in
          let w := with_files fs (invoked build_argv w) in
          match p with
          | SpawnFailed msg => (Raise (OSError msg), w)
          | Exited code out err =>
              if Z.eqb code 0 then (Ok output_path, w)
              else (Raise (RuntimeError ("Failed to build Go parser: "
                                         +:+ describe build_argv code)), w)
          end
      end
  end.

Definition _find_go_parser (w : world) : result string * world :=
  match list_find (λ path, path ∈ dom (files w)) possible_paths with
  | Some (_, path) => (Ok path, w)
  | None => _build_go_parser w
  end.

(** [__init__]: the parser path of the new bridge, whose cache is empty.
    [None] and the empty string both ask for the lookup. *)
Definition __init__ (path : option string) (w : world) : result string * world :=
  let '(found, w) :=
    match path with
    | Some p => if String.eqb p "" then _find_go_parser w else (Ok p, w)
    | None => _find_go_parser w
    end in
  match found with
  | Ok p => (Ok p, with_cache ∅ w)
  | Raise e => (Raise e, w)
  end.


(** ** The engine invocation and its cache (C6, C9, C10) *)

Lemma tmp_name_fresh w : tmp_name w ∉ dom (files w).
Proof. unfold tmp_name. apply is_fresh. Qed.

Lemma cleanup_files tmp_path w :
  files (cleanup tmp_path w) = delete tmp_path (files w).
Proof.
  unfold cleanup. case_decide as H; [done|].
  symmetry. apply delete_id. by apply not_elem_of_dom.
Qed.

Lemma cleanup_rest tmp_path w :
  cache (cleanup tmp_path w) = cache w ∧
  invocations (cleanup tmp_path w) = invocations w ∧
  console (cleanup tmp_path w) = console w.
Proof. unfold cleanup. by case_decide. Qed.

(** What the [try] block does to the world, however it ends. *)
Lemma run_parser_world aep_path tmp_path cache_key use_cache w :
  let out := run_parser aep_path tmp_path cache_key use_cache w in
  files out.2 = (engine (argv_for aep_path tmp_path) (files w)).2 ∧
  invocations out.2 = (invocations w ++ [argv_for aep_path tmp_path])%list ∧
  console out.2 = console w ∧
  match out.1 with
  | Ok metadata =>
      cache out.2 = if use_cache then <[cache_key := metadata]> (cache w)
                    else cache w
  | Raise _ => cache out.2 = cache w
  end.
Proof.
  unfold run_parser.
  destruct (engine _ (files w)) as [[code out err|msg] fs]; simpl; [|done].
  destruct (Z.eqb code 0); simpl; [|done].
  destruct (fs !! tmp_path) as [text|]; simpl; [|done].
  destruct (json_load text); simpl; [|done].
  by destruct use_cache.
Qed.

(** The two ways a call goes: without the engine (the file is missing, or
    its record is cached), the world is untouched; with it, a temporary
    file is made, the engine runs once, and the file is deleted. *)
Lemma parse_aep_world aep_path use_cache w :
  let out := parse_aep aep_path use_cache w in
  let tmp_path := tmp_name w in
  let argv := argv_for (resolve aep_path) tmp_path in
  out.2 = w ∨
  (files out.2 = delete tmp_path (engine argv (<[tmp_path := ""]> (files w))).2 ∧
   invocations out.2 = (invocations w ++ [argv])%list ∧
   console out.2 = console w ∧
   match out.1 with
   | Ok metadata =>
       cache out.2 = if use_cache then <[resolve aep_path := metadata]> (cache w)
                     else cache w
   | Raise _ => cache out.2 = cache w
   end).
Proof.
  unfold parse_aep. simpl.
  case_decide; [|by left].
  destruct (if use_cache then cache w !! resolve aep_path else None);
    [by left|]. right.
  pose proof (run_parser_world (resolve aep_path) (tmp_name w)
                (resolve aep_path) use_cache
                (with_files (<[tmp_name w := ""]> (files w)) w)) as Hrun.
  destruct (run_parser _ _ _ _ _) as [r w2]. simpl in *.
  destruct Hrun as (Hf & Hi & Hc & Hr).
  destruct (cleanup_rest (tmp_name w) w2) as (-> & -> & ->).
  by rewrite cleanup_files, Hf.
Qed.

(** C9: when a call of [parse_aep] ends, the temporary file it named does
    not exist, whichever way the call ended: the world is as before the
    call and no such file was made, or the file was made, the engine ran,
    and the file was deleted after it, whether the engine succeeded,
    failed or left output that could not be read. *)
Theorem parse_aep_removes_temp_file aep_path use_cache w :
  let out := parse_aep aep_path use_cache w in
  let tmp_path := tmp_name w in
  (tmp_path ∉ dom (files out.2)) ∧
  (out.2 = w ∨
   tmp_path ∈ dom (<[tmp_path := ""]> (files w)) ∧
   invocations out.2 = (invocations w ++ [argv_for (resolve aep_path) tmp_path])%list ∧
   files out.2
   = delete tmp_path
       (engine (argv_for (resolve aep_path) tmp_path)
               (<[tmp_path := ""]> (files w))).2).
Proof.
  simpl. destruct (parse_aep_world aep_path use_cache w)
    as [->|(Hf & Hi & _)].
  - split; [apply tmp_name_fresh | by left].
  - split.
    + rewrite Hf, dom_delete_L, elem_of_difference, elem_of_singleton. tauto.
    + right. split; [|done]. rewrite dom_insert_L. apply elem_of_union_l.
      by apply elem_of_singleton.
Qed.

(** A call that returns a record with caching enabled leaves it cached
    under the resolved path. *)
Lemma parse_aep_caches aep_path w metadata w1 :
  parse_aep aep_path true w = (Ok metadata, w1) →
  cache w1 !! resolve aep_path = Some metadata.
Proof.
  unfold parse_aep. intros H. case_decide; [|done].
  destruct (cache w !! resolve aep_path) as [m|] eqn:Hc.
  - by injection H as -> ->.
  - pose proof (run_parser_world (resolve aep_path) (tmp_name w)
                  (resolve aep_path) true
                  (with_files (<[tmp_name w := ""]> (files w)) w)) as Hrun.
    destruct (run_parser _ _ _ _ _) as [r w2]. simpl in Hrun.
    injection H as -> <-. destruct Hrun as (_ & _ & _ & Hcache).
    destruct (cleanup_rest (tmp_name w) w2) as (-> & _).
    rewrite Hcache. apply lookup_insert_eq.
Qed.

(** C6: after a call with caching enabled has returned a record for a file,
    and while the file is unchanged on disk, a second call with caching
    enabled, under the same or another spelling that resolves to the same
    path, returns the same record and leaves the world as it is: it runs no
    engine process. *)
Theorem parse_aep_cache_hit aep_path aep_path' w metadata w1 :
  parse_aep aep_path true w = (Ok metadata, w1) →
  resolve aep_path' = resolve aep_path →
  files w1 !! resolve aep_path = files w !! resolve aep_path →
  parse_aep aep_path' true w1 = (Ok metadata, w1) ∧
  invocations (parse_aep aep_path' true w1).2 = invocations w1.
Proof.
  intros H Hres Hsame.
  assert (parse_aep aep_path' true w1 = (Ok metadata, w1)) as Hhit.
  { pose proof (parse_aep_caches _ _ _ _ H) as Hc.
    assert (resolve aep_path ∈ dom (files w)) as Hin.
    { unfold parse_aep in H. by case_decide. }
    unfold parse_aep. rewrite Hres, Hc.
    rewrite decide_True; [done|].
    apply elem_of_dom. rewrite Hsame. by apply elem_of_dom. }
  by rewrite Hhit.
Qed.

(** C10, as the code has it: a call that raises leaves the cache as it was;
    and the next call for the same path is not answered from that failure:
    it checks again that the file exists and, when it does and the path had
    no record cached (or the cache is bypassed), it runs the engine. *)
Theorem parse_aep_failure_not_cached aep_path use_cache w e w1 :
  parse_aep aep_path use_cache w = (Raise e, w1) →
  cache w1 = cache w ∧
  ∀ use_cache',
    resolve aep_path ∈ dom (files w1) →
    use_cache' = false ∨ cache w !! resolve aep_path = None →
    invocations (parse_aep aep_path use_cache' w1).2
    = (invocations w1 ++ [argv_for (resolve aep_path) (tmp_name w1)])%list.
Proof.
  intros H. pose proof (parse_aep_world aep_path use_cache w) as Hw.
  rewrite H in Hw. simpl in Hw.
  assert (cache w1 = cache w) as Hc.
  { by destruct Hw as [->|(_ & _ & _ & ->)]. }
  split; [done|]. intros use_cache' Hin Hmiss.
  destruct (parse_aep_world aep_path use_cache' w1) as [Hsame|(_ & Hi & _)];
    [|done].
  exfalso. unfold parse_aep in Hsame. rewrite decide_True in Hsame by done.
  assert ((if use_cache' then cache w1 !! resolve aep_path else None) = None)
    as Hnone.
  { destruct Hmiss as [->| Hmiss]; [done|]. rewrite Hc, Hmiss. by destruct use_cache'. }
  rewrite Hnone in Hsame.
  pose proof (run_parser_world (resolve aep_path) (tmp_name w1)
                (resolve aep_path) use_cache'
                (with_files (<[tmp_name w1 := ""]> (files w1)) w1)) as Hrun.
  destruct (run_parser _ _ _ _ _) as [r w2]. simpl in *.
  destruct Hrun as (_ & Hi & _).
  destruct (cleanup_rest (tmp_name w1) w2) as (_ & Hi' & _).
  rewrite Hsame in Hi'. rewrite <- Hi' in Hi.
  apply (f_equal length) in Hi. rewrite length_app in Hi. simpl in Hi. lia.
Qed.

(** ** The directory batch (C4) *)

Lemma parse_aep_console aep_path use_cache w :
  console (parse_aep aep_path use_cache w).2 = console w.
Proof.
  by destruct (parse_aep_world aep_path use_cache w) as [->|(_ & _ & -> & _)].
Qed.

Lemma outcomes_files aep_files w : (outcomes aep_files w).*1 = aep_files.
Proof.
  revert w. induction aep_files as [|f fs IH]; intros w; simpl; [done|].
  destruct (parse_aep f true w) as [[m|e] w1]; simpl; by rewrite IH.
Qed.

Lemma outcomes_length os :
  (length (successes os) + length (failures os) = length os)%nat.
Proof.
  induction os as [|[f [m|e]] os IH]; simpl; lia.
Qed.

(** The loop returns the records of the files that parse, after those it
    started with, and prints one line for each file that does not. *)
Lemma catalog_files_outcomes aep_files results w :
  (catalog_files aep_files results w).1
  = (results ++ successes (outcomes aep_files w))%list ∧
  console (catalog_files aep_files results w).2
  = (console w ++ failures (outcomes aep_files w))%list.
Proof.
  revert results w. induction aep_files as [|f fs IH]; intros results w; simpl.
  - by rewrite !app_nil_r.
  - pose proof (parse_aep_console f true w) as Hc.
    destruct (parse_aep f true w) as [[m|e] w1]; simpl in *.
    + destruct (IH (results ++ [m])%list w1) as [-> ->].
      by rewrite <- app_assoc, Hc.
    + destruct (IH results (print (ErrorParsing f e) w1)) as [-> ->].
      simpl. by rewrite <- app_assoc, Hc.
Qed.

(** C4, as the code has it: when [parse_aep] raises for exactly one of the
    files the directory enumeration finds, [catalog_directory] returns the
    list of the raw records of all the other files, one fewer than the
    files, in the order of the enumeration, and prints exactly one line,
    naming that file and the exception; it goes on to the end of the
    enumeration. *)
Theorem catalog_directory_isolates_failure directory pattern w :
  let aep_files := rglob directory pattern (files w) in
  let out := catalog_directory directory pattern w in
  let os := outcomes aep_files w in
  length (failures os) = 1%nat →
  os.*1 = aep_files ∧
  out.1 = successes os ∧
  length out.1 = (length aep_files - 1)%nat ∧
  ∃ aep_file e,
    (aep_file, Raise e) ∈ os ∧
    console out.2 = (console w ++ [ErrorParsing aep_file e])%list.
Proof.
  simpl. intros Hone. unfold catalog_directory.
  set (aep_files := rglob directory pattern (files w)) in *.
  destruct (catalog_files_outcomes aep_files [] w) as [Hr Hc].
  pose proof (outcomes_length (outcomes aep_files w)) as Hlen.
  pose proof (outcomes_files aep_files w) as Hfs.
  split; [done|]. split; [done|]. split.
  - rewrite Hr. simpl. apply (f_equal length) in Hfs.
    rewrite length_fmap in Hfs. lia.
  - rewrite Hc.
    assert (∀ os, length (failures os) = 1%nat →
              ∃ f e, (f, Raise e) ∈ os ∧ failures os = [ErrorParsing f e])
      as Hfail.
    { clear. induction os as [|[f [m|e]] os IH]; simpl; intros H; [done|..].
      - destruct (IH H) as (f' & e' & Hin & ->).
        exists f', e'. split; [by right | done].
      - exists f, e. split; [by left|].
        destruct (failures os); [done | discriminate]. }
    destruct (Hfail _ Hone) as (f & e & Hin & ->). by exists f, e.
Qed.
(** ** Further properties of the engine invocation and its cache *)

(** A call for a file that does not exist raises [FileNotFoundError]
    naming the resolved path, before the cache is looked at: a record cached
    for the path is not returned once the file is gone.  The world is left
    as it is. *)
Lemma parse_aep_missing_file_precedes_cache aep_path use_cache w :
  resolve aep_path ∉ dom (files w) →
  parse_aep aep_path use_cache w
  = (Raise (FileNotFoundError ("AEP file not found: " +:+ resolve aep_path)), w).
Proof. intros H. unfold parse_aep. by rewrite decide_False. Qed.

(** X13: with [use_cache] off, a call for an existing file runs the engine
    once, also when a record is cached for the file, and leaves the cache as
    it is, whether it returns or raises. *)
Theorem parse_aep_bypasses_cache aep_path w :
  resolve aep_path ∈ dom (files w) →
  let out := parse_aep aep_path false w in
  cache out.2 = cache w ∧
  invocations out.2
  = (invocations w ++ [argv_for (resolve aep_path) (tmp_name w)])%list.
Proof.
  intros Hin. simpl.
  destruct (parse_aep_world aep_path false w) as [Hsame|(_ & Hi & _ & Hc)].
  - exfalso. unfold parse_aep in Hsame. rewrite decide_True in Hsame by done.
    pose proof (run_parser_world (resolve aep_path) (tmp_name w)
                  (resolve aep_path) false
                  (with_files (<[tmp_name w := ""]> (files w)) w)) as Hrun.
    destruct (run_parser _ _ _ _ _) as [r w2]. simpl in *.
    destruct Hrun as (_ & Hi & _).
    destruct (cleanup_rest (tmp_name w) w2) as (_ & Hi' & _).
    rewrite Hsame in Hi'. rewrite <- Hi' in Hi.
    apply (f_equal length) in Hi. rewrite length_app in Hi. simpl in Hi. lia.
  - split; [|done]. by destruct (parse_aep aep_path false w).1.
Qed.

(** X14: a call changes the cache at the resolved path only, and only by
    storing the record it returns: every other entry stays, with caching on
    no entry is ever replaced, and whatever the cache holds afterwards was
    there before or is the record just returned. *)
Theorem parse_aep_cache_grows aep_path use_cache w :
  let out := parse_aep aep_path use_cache w in
  (∀ k, k ≠ resolve aep_path → cache out.2 !! k = cache w !! k) ∧
  (use_cache = true → cache w ⊆ cache out.2) ∧
  (∀ k m, cache out.2 !! k = Some m →
     cache w !! k = Some m ∨ (k = resolve aep_path ∧ out.1 = Ok m)).
Proof.
  simpl. pose proof (parse_aep_world aep_path use_cache w) as Hw.
  unfold parse_aep in *. simpl in Hw.
  destruct (decide (resolve aep_path ∈ dom (files w))) as [Hin|Hout]; [|by auto].
  destruct (if use_cache then cache w !! resolve aep_path else None) eqn:Hhit;
    [by auto|].
  destruct (run_parser _ _ _ _ _) as [r w2]. simpl in *.
  destruct Hw as [->|(_ & _ & _ & Hc)]; [by auto|].
  set (c2 := cache (cleanup (tmp_name w) w2)) in *.
  destruct r as [m|err]; [|rewrite Hc; by auto].
  destruct use_cache; [|rewrite Hc; by auto].
  rewrite Hc. split; [|split].
  - intros k Hk. by rewrite lookup_insert_ne.
  - intros _. by apply insert_subseteq.
  - intros k m'. destruct (decide (resolve aep_path = k)) as [<-|Hne].
    + rewrite lookup_insert_eq. intros [= <-]. by right.
    + rewrite lookup_insert_ne by done. by left.
Qed.

(** X15: how a call that reaches the engine ends is decided by the exit
    code.  A non-zero exit raises [RuntimeError] with the text of the
    engine's error stream, whatever the engine wrote to its output file; a
    zero exit gives what [json.load] makes of the output file, whatever the
    engine printed on its error stream. *)
Theorem parse_aep_exit_code_decides aep_path (use_cache : bool) w code out err
    (fs : gmap string string) :
  resolve aep_path ∈ dom (files w) →
  (if use_cache then cache w !! resolve aep_path else None) = None →
  engine (argv_for (resolve aep_path) (tmp_name w))
         (<[tmp_name w := ""]> (files w))
  = (Exited code out err, fs) →
  (parse_aep aep_path use_cache w).1
  = if Z.eqb code 0
    then match fs !! tmp_name w with
         | Some text => json_load text
         | None => Raise (FileNotFoundError (tmp_name w))
         end
    else Raise (RuntimeError ("Go parser failed: " +:+ err)).
Proof.
  intros Hin Hmiss Heng. unfold parse_aep. rewrite decide_True by done.
  rewrite Hmiss. unfold run_parser. simpl. rewrite Heng. simpl.
  destruct (Z.eqb code 0); [|done].
  destruct (fs !! tmp_name w) as [text|]; [|done].
  by destruct (json_load text).
Qed.

(** X16: when the engine changes no file but the one it is told to write to,
    a call leaves the files on disk exactly as it found them, whichever way
    it ends: its temporary file is the only trace, and it is deleted. *)
Theorem parse_aep_restores_disk aep_path use_cache w :
  (∀ aep tmp fs k, k ≠ tmp → (engine (argv_for aep tmp) fs).2 !! k = fs !! k) →
  files (parse_aep aep_path use_cache w).2 = files w.
Proof.
  intros Heng.
  destruct (parse_aep_world aep_path use_cache w) as [->|(-> & _)]; [done|].
  apply map_eq. intros k.
  destruct (decide (k = tmp_name w)) as [->|Hne].
  - rewrite lookup_delete_eq. symmetry. apply not_elem_of_dom, tmp_name_fresh.
  - rewrite lookup_delete_ne by done. rewrite Heng by done.
    by rewrite lookup_insert_ne.
Qed.

(** ** Further properties of the directory batch *)

Lemma parse_aep_invocations aep_path use_cache w :
  ∃ runs, invocations (parse_aep aep_path use_cache w).2
          = (invocations w ++ runs)%list ∧ (length runs ≤ 1)%nat.
Proof.
  destruct (parse_aep_world aep_path use_cache w) as [->|(_ & -> & _)].
  - exists []. split; [by rewrite app_nil_r | simpl; lia].
  - eexists [_]. split; [done | simpl; lia].
Qed.

Lemma parse_aep_cache_subseteq aep_path w :
  cache w ⊆ cache (parse_aep aep_path true w).2.
Proof. by apply (parse_aep_cache_grows aep_path true w). Qed.

Lemma catalog_files_world aep_files results w :
  let out := catalog_files aep_files results w in
  cache w ⊆ cache out.2 ∧
  ∃ runs, invocations out.2 = (invocations w ++ runs)%list ∧
          (length runs ≤ length aep_files)%nat.
Proof.
  revert results w. induction aep_files as [|f fs IH]; intros results w; simpl.
  - split; [done|]. exists []. split; [by rewrite app_nil_r | simpl; lia].
  - pose proof (parse_aep_cache_subseteq f w) as Hc.
    destruct (parse_aep_invocations f true w) as (r1 & Hi & Hl).
    destruct (parse_aep f true w) as [[m|e] w1]; simpl in *.
    + destruct (IH (results ++ [m])%list w1) as (Hc' & r2 & -> & Hl').
      split; [by etrans|]. exists (r1 ++ r2)%list.
      rewrite Hi, <- app_assoc, length_app. split; [done | lia].
    + destruct (IH results (print (ErrorParsing f e) w1)) as (Hc' & r2 & -> & Hl').
      split; [by etrans|]. exists (r1 ++ r2)%list. simpl.
      rewrite Hi, <- app_assoc, length_app. split; [done | lia].
Qed.

(** X17: [catalog_directory] accounts for every file the enumeration finds:
    each one gives a record, in the returned list, or an error line, on the
    console, so the two numbers add up to the number of files; the engine is
    run at most once for each file; and no record cached before is lost. *)
Theorem catalog_directory_accounts_for_files directory pattern w :
  let aep_files := rglob directory pattern (files w) in
  let out := catalog_directory directory pattern w in
  ∃ printed runs,
    console out.2 = (console w ++ printed)%list ∧
    (length out.1 + length printed = length aep_files)%nat ∧
    invocations out.2 = (invocations w ++ runs)%list ∧
    (length runs ≤ length aep_files)%nat ∧
    cache w ⊆ cache out.2.
Proof.
  simpl. unfold catalog_directory.
  set (aep_files := rglob directory pattern (files w)).
  destruct (catalog_files_outcomes aep_files [] w) as [Hr Hc].
  destruct (catalog_files_world aep_files [] w) as (Hsub & runs & Hi & Hl).
  exists (failures (outcomes aep_files w)), runs.
  split; [done|]. split; [|done].
  rewrite Hr. simpl. rewrite outcomes_length.
  rewrite <- (outcomes_files aep_files w) at 2. by rewrite length_fmap.
Qed.

Lemma catalog_files_cached aep_files results w f m :
  (f, Ok m) ∈ outcomes aep_files w →
  cache (catalog_files aep_files results w).2 !! resolve f = Some m.
Proof.
  revert results w. induction aep_files as [|f0 fs IH]; intros results w Hin;
    simpl in *; [by apply elem_of_nil in Hin|].
  pose proof (parse_aep_caches f0 w) as Hc.
  destruct (parse_aep f0 true w) as [[m0|e] w1]; simpl in *.
  - apply elem_of_cons in Hin as [[= -> ->]|Hin]; [|by apply IH].
    destruct (catalog_files_world fs (results ++ [m0])%list w1) as [Hsub _].
    eapply lookup_weaken; [|exact Hsub]. by eapply Hc.
  - apply elem_of_cons in Hin as [[=]|Hin]. by apply IH.
Qed.

(** X18: after [catalog_directory], every record it returned is in the
    cache under the resolved path of its file, so that parsing such a file
    again is answered from the cache. *)
Theorem catalog_directory_caches_records directory pattern w f m :
  (f, Ok m) ∈ outcomes (rglob directory pattern (files w)) w →
  cache (catalog_directory directory pattern w).2 !! resolve f = Some m.
Proof. apply catalog_files_cached. Qed.

(** ** The engine locator *)

(** X21: the lookup returns the first of the four conventional paths that
    exists, in their order, and then touches nothing: no directory is made,
    no file written, no build run. *)
Theorem find_go_parser_first_existing w i path :
  possible_paths !! i = Some path →
  path ∈ dom (files w) →
  (∀ j p, (j < i)%nat → possible_paths !! j = Some p → p ∉ dom (files w)) →
  _find_go_parser w = (Ok path, w).
Proof.
  intros Hi Hin Hfirst. unfold _find_go_parser.
  assert (list_find (λ p, p ∈ dom (files w)) possible_paths = Some (i, path))
    as ->; [|done].
  apply list_find_Some. split; [done|]. split; [done|].
  intros j p Hj Hlt. by eapply Hfirst.
Qed.

(** X22: a build whose directories can be made ends as the [go] process
    does.  It starts from the source on disk, written first when [main.go]
    is missing and never overwritten when it is there; exit status zero
    gives the path [bin/aep_parser] under the module directory, without a
    look at whether the file is there; any other status raises
    [RuntimeError]. *)
Theorem build_go_parser_follows_exit_status w code out err
    (fs : gmap string string) :
  (parser_main ∉ dom (files w) →
   mkdir true (join (join parser_dir "cmd") "parser") (files w) = None) →
  mkdir false (join parser_dir "bin") (with_source (files w)) = None →
  go_build build_argv repo_dir (with_source (files w)) = (Exited code out err, fs) →
  (∀ text, files w !! parser_main = Some text →
           with_source (files w) !! parser_main = Some text) ∧
  (_build_go_parser w).1
  = (if Z.eqb code 0 then Ok output_path
     else Raise (RuntimeError ("Failed to build Go parser: "
                               +:+ describe build_argv code))) ∧
  files (_build_go_parser w).2 = fs ∧
  invocations (_build_go_parser w).2 = (invocations w ++ [build_argv])%list ∧
  cache (_build_go_parser w).2 = cache w.
Proof.
  intros Hcmd Hbin Hgo. unfold _build_go_parser, with_source in *.
  destruct (decide (parser_main ∈ dom (files w))) as [Hin|Hout].
  - split; [done|]. simpl. rewrite Hbin, Hgo. simpl.
    by destruct (Z.eqb code 0).
  - split.
    { intros text Ht. exfalso. apply Hout, elem_of_dom. by eexists. }
    unfold _create_parser_command. rewrite (Hcmd Hout). simpl.
    change (join (join (join parser_dir "cmd") "parser") "main.go")
      with parser_main.
    rewrite Hbin, Hgo. simpl. by destruct (Z.eqb code 0).
Qed.

Lemma build_go_parser_path w p w1 :
  _build_go_parser w = (Ok p, w1) → p = output_path.
Proof.
  unfold _build_go_parser.
  destruct (if decide (parser_main ∈ dom (files w)) then _ else _)
    as [[[]|e] w0]; [|discriminate].
  destruct (mkdir false _ _); [discriminate|].
  destruct (go_build _ _ _) as [[code out err|msg] fs]; [|discriminate].
  destruct (Z.eqb code 0); [|discriminate]. by intros [= <- _].
Qed.

Lemma find_go_parser_path w p w1 :
  _find_go_parser w = (Ok p, w1) → p ∈ possible_paths.
Proof.
  unfold _find_go_parser.
  destruct (list_find _ possible_paths) as [[i path]|] eqn:Hf.
  - intros [= <- _]. apply list_find_Some in Hf as (Hi & _).
    apply list_elem_of_lookup. by exists i.
  - intros ->%build_go_parser_path. unfold possible_paths, output_path.
    right. by left.
Qed.

(** X23: the parser path of a new bridge is the non-empty path it was
    given, or else one of the four conventional paths; and the bridge starts
    with an empty cache. *)
Theorem init_parser_path path w p w1 :
  __init__ path w = (Ok p, w1) →
  cache w1 = ∅ ∧
  ((path = Some p ∧ p ≠ "") ∨ p ∈ possible_paths).
Proof.
  unfold __init__. intros H.
  destruct path as [q|].
  - destruct (String.eqb_spec q "") as [->|Hne].
    + destruct (_find_go_parser w) as [[p'|e] w'] eqn:Hf; [|discriminate].
      injection H as <- <-. split; [done|]. right. by eapply find_go_parser_path.
    + injection H as <- <-. split; [done|]. by left.
  - destruct (_find_go_parser w) as [[p'|e] w'] eqn:Hf; [|discriminate].
    injection H as <- <-. split; [done|]. right. by eapply find_go_parser_path.
Qed.

(** X24: once a lookup has returned a path, and the file is there, the
    next lookup returns a path again and touches nothing: a parser that was
    built is found where the build put it and is not built again. *)
Theorem find_go_parser_again w p w1 :
  _find_go_parser w = (Ok p, w1) →
  p ∈ dom (files w1) →
  ∃ p', _find_go_parser w1 = (Ok p', w1) ∧ p' ∈ dom (files w1).
Proof.
  intros Hf Hin. apply find_go_parser_path in Hf.
  unfold _find_go_parser.
  destruct (list_find (λ q, q ∈ dom (files w1)) possible_paths)
    as [[i q]|] eqn:Hl.
  - apply list_find_Some in Hl as (_ & Hq & _). by exists q.
  - exfalso. rewrite list_find_None, Forall_forall in Hl. by eapply Hl.
Qed.

(** ** Cataloging a directory again *)

Lemma parse_aep_hit aep_path w m :
  cache w !! resolve aep_path = Some m →
  resolve aep_path ∈ dom (files w) →
  parse_aep aep_path true w = (Ok m, w).
Proof.
  intros Hc Hin. unfold parse_aep. rewrite decide_True by done. by rewrite Hc.
Qed.

Lemma catalog_files_hits aep_files results w recs :
  Forall2 (λ f m, cache w !! resolve f = Some m ∧ resolve f ∈ dom (files w))
    aep_files recs →
  catalog_files aep_files results w = ((results ++ recs)%list, w).
Proof.
  intros H. revert results.
  induction H as [|f m fs ms [Hc Hin] _ IH]; intros results; simpl.
  - by rewrite app_nil_r.
  - rewrite (parse_aep_hit _ _ _ Hc Hin). by rewrite IH, <- app_assoc.
Qed.

Lemma parse_aep_Ok_exists aep_path use_cache w m w1 :
  parse_aep aep_path use_cache w = (Ok m, w1) → resolve aep_path ∈ dom (files w).
Proof. unfold parse_aep. by case_decide. Qed.

Lemma catalog_files_files aep_files results w :
  (∀ aep tmp fs k, k ≠ tmp → (engine (argv_for aep tmp) fs).2 !! k = fs !! k) →
  files (catalog_files aep_files results w).2 = files w.
Proof.
  intros Heng. revert results w.
  induction aep_files as [|f fs IH]; intros results w; simpl; [done|].
  pose proof (parse_aep_restores_disk f true w Heng) as Hf.
  destruct (parse_aep f true w) as [[m|e] w1]; simpl in *; by rewrite IH.
Qed.

Lemma outcomes_all_parsed aep_files w :
  (∀ aep tmp fs k, k ≠ tmp → (engine (argv_for aep tmp) fs).2 !! k = fs !! k) →
  failures (outcomes aep_files w) = [] →
  Forall2 (λ f m, (f, Ok m) ∈ outcomes aep_files w ∧ resolve f ∈ dom (files w))
    aep_files (successes (outcomes aep_files w)).
Proof.
  intros Heng. revert w. induction aep_files as [|f fs IH]; intros w; simpl.
  - constructor.
  - pose proof (parse_aep_restores_disk f true w Heng) as Hf.
    pose proof (parse_aep_Ok_exists f true w) as Hex.
    destruct (parse_aep f true w) as [[m|e] w1]; simpl in *; [|discriminate].
    intros Hnone. constructor.
    + split; [by left | by eapply Hex].
    + eapply Forall2_impl; [by apply IH|]. simpl.
      intros f' m' [Hin Hd]. split; [by right | by rewrite <- Hf].
Qed.

(** X25: when a pass of [catalog_directory] has parsed every file it found,
    with an engine that changes no file but its output, a second pass over
    the same files returns the same records and leaves the world as it is:
    every file is answered from the cache and the engine is not run. *)
Theorem catalog_directory_again directory pattern w aep_files :
  (∀ aep tmp fs k, k ≠ tmp → (engine (argv_for aep tmp) fs).2 !! k = fs !! k) →
  rglob directory pattern (files w) = aep_files →
  failures (outcomes aep_files w) = [] →
  let first := catalog_directory directory pattern w in
  catalog_directory directory pattern first.2 = first.
Proof.
  intros Heng Hglob Hnone. simpl. unfold catalog_directory.
  rewrite (catalog_files_files _ _ _ Heng), Hglob.
  pose proof (outcomes_all_parsed aep_files w Heng Hnone) as Hall.
  destruct (catalog_files_outcomes aep_files [] w) as [Hr _].
  pose proof (catalog_files_files aep_files [] w Heng) as Hfiles.
  assert (Forall2 (λ f m,
            cache (catalog_files aep_files [] w).2 !! resolve f = Some m ∧
            resolve f ∈ dom (files (catalog_files aep_files [] w).2))
            aep_files (successes (outcomes aep_files w))) as Hhits.
  { eapply Forall2_impl; [exact Hall|]. simpl. intros f m [Hin Hd].
    split; [by apply catalog_files_cached | by rewrite Hfiles]. }
  rewrite (catalog_files_hits _ [] _ _ Hhits). simpl.
  destruct (catalog_files aep_files [] w) as [rs w1]. simpl in *. by rewrite Hr.
Qed.

(** X12: a call with [use_cache] off does not refresh the cache.  When a
    record is cached for a file, a bypassing call runs the engine and
    returns what it gives, but the next caching call for the file, still
    there, returns the record cached before, and runs no engine. *)
Theorem parse_aep_bypass_keeps_stale_record aep_path w m :
  cache w !! resolve aep_path = Some m →
  resolve aep_path ∈ dom (files w) →
  let bypass := parse_aep aep_path false w in
  resolve aep_path ∈ dom (files bypass.2) →
  invocations bypass.2
  = (invocations w ++ [argv_for (resolve aep_path) (tmp_name w)])%list ∧
  parse_aep aep_path true bypass.2 = (Ok m, bypass.2).
Proof.
  intros Hc Hin. simpl. intros Hin'.
  destruct (parse_aep_bypasses_cache aep_path w Hin) as [Hcache Hinv].
  split; [done|]. apply parse_aep_hit; [|done]. by rewrite Hcache.
Qed.

End Bridge.

(** *** The bridge on the stand-in engine *)

Lemma parse_aep_cache_hit_witness :
  let w := on_disk [("a.aep", "sample")] in
  let out := parse_aep "parser" strip_dot echo_engine decode "./a.aep" true w in
  out = (Ok sample_raw, out.2) ∧
  strip_dot "a.aep" = strip_dot "./a.aep" ∧
  files out.2 !! strip_dot "./a.aep" = files w !! strip_dot "./a.aep" ∧
  parse_aep "parser" strip_dot echo_engine decode "a.aep" true out.2
  = (Ok sample_raw, out.2) ∧
  invocations
    (parse_aep "parser" strip_dot echo_engine decode "a.aep" true out.2).2
  = invocations out.2.
Proof.
  split; [vm_compute; reflexivity|].
  split; [reflexivity|].
  split; [vm_compute; reflexivity|].
  apply (parse_aep_cache_hit "parser" strip_dot echo_engine decode
           "./a.aep" "a.aep" (on_disk [("a.aep", "sample")]));
    vm_compute; reflexivity.
Defined.

Lemma parse_aep_failure_not_cached_witness :
  let w := on_disk [("b.aep", "crash")] in
  let out := parse_aep "parser" strip_dot echo_engine decode "b.aep" true w in
  out = (Raise (RuntimeError "Go parser failed: cannot read project"), out.2) ∧
  cache out.2 = cache w ∧
  ∀ use_cache',
    strip_dot "b.aep" ∈ dom (files out.2) →
    use_cache' = false ∨ cache w !! strip_dot "b.aep" = None →
    invocations
      (parse_aep "parser" strip_dot echo_engine decode "b.aep" use_cache' out.2).2
    = (invocations out.2
       ++ [argv_for "parser" (strip_dot "b.aep") (tmp_name out.2)])%list.
Proof.
  split; [vm_compute; reflexivity|].
  apply (parse_aep_failure_not_cached "parser" strip_dot echo_engine decode
           "b.aep" true (on_disk [("b.aep", "crash")])
           (RuntimeError "Go parser failed: cannot read project")).
  vm_compute; reflexivity.
Defined.

(** C10 as it is worded fails for a missing file: the call raises, and the
    next call for the same path raises again without running the engine. *)
Lemma missing_file_runs_no_engine :
  let w := on_disk [] in
  let out := parse_aep "parser" strip_dot echo_engine decode "a.aep" true w in
  let again := parse_aep "parser" strip_dot echo_engine decode "a.aep" true out.2 in
  out.1 = Raise (FileNotFoundError "AEP file not found: a.aep") ∧
  again.1 = Raise (FileNotFoundError "AEP file not found: a.aep") ∧
  invocations again.2 = invocations out.2 ∧
  invocations again.2 = [].
Proof. repeat split; vm_compute; reflexivity. Qed.

Lemma catalog_directory_isolates_failure_witness :
  let w := on_disk [("a.aep", "sample"); ("b.aep", "crash"); ("c.aep", "alt")] in
  let aep_files := ["a.aep"; "b.aep"; "c.aep"] in
  let out := catalog_directory "parser" strip_dot echo_engine decode
               (found aep_files) "templates" "*.aep" w in
  let os := outcomes "parser" strip_dot echo_engine decode aep_files w in
  length (failures os) = 1%nat ∧
  os.*1 = aep_files ∧
  out.1 = successes os ∧
  length out.1 = 2%nat ∧
  ∃ aep_file e,
    (aep_file, Raise e) ∈ os ∧
    console out.2 = (console w ++ [ErrorParsing aep_file e])%list.
Proof.
  split; [vm_compute; reflexivity|].
  apply (catalog_directory_isolates_failure "parser" strip_dot echo_engine
           decode (found ["a.aep"; "b.aep"; "c.aep"]) "templates" "*.aep"
           (on_disk [("a.aep", "sample"); ("b.aep", "crash"); ("c.aep", "alt")])).
  vm_compute; reflexivity.
Defined.

(** C4 as the spec words it fails.  Of two files, one has a record the
    converter rejects; [catalog_directory] returns both records and prints
    nothing, for it does not convert.  And what it returns when a file does
    fail is the list of the other records alone: the same list whether the
    second file crashed the engine or a third file was missing. *)
Lemma schema_mismatch_not_isolated :
  let run := λ aep_files disk,
    catalog_directory "parser" strip_dot echo_engine decode
      (found aep_files) "templates" "*.aep" (on_disk disk) in
  let mismatch := run ["a.aep"; "b.aep"] [("a.aep", "sample"); ("b.aep", "{}")] in
  let crashed := run ["a.aep"; "b.aep"] [("a.aep", "sample"); ("b.aep", "crash")] in
  let missing := run ["a.aep"; "c.aep"] [("a.aep", "sample")] in
  convert_to_mobot_format no_repr set_forward (JDict [])
  = Raise (KeyError "file_path") ∧
  mismatch.1 = [sample_raw; JDict []] ∧
  console mismatch.2 = [] ∧
  crashed.1 = [sample_raw] ∧
  missing.1 = [sample_raw] ∧
  console crashed.2 ≠ console missing.2.
Proof.
  repeat split; try (vm_compute; reflexivity).
  vm_compute. discriminate.
Qed.

(** * Properties of the converter and the report *)

(** ** Sequencing and loops *)

Lemma bind_Ok {A B} (r : result A) (k : A → result B) (b : B) :
  r ≫= k = Ok b → ∃ a, r = Ok a ∧ k a = Ok b.
Proof. destruct r as [a|e]; simpl; [eauto | discriminate]. Qed.

Lemma bind_Raise {A B} (r : result A) (k : A → result B) (e : exn) :
  r = Raise e → r ≫= k = Raise e.
Proof. by intros ->. Qed.

(** Splits a hypothesis [x ← r; ... = Ok b] into one equation per step. *)
Ltac bind_inv H :=
  repeat
    (let a := fresh "a" in
     let E := fresh "E" in
     apply bind_Ok in H as (a & E & H)).

Lemma for_each_Ok {A B} (f : A → result B) xs ys :
  for_each f xs = Ok ys → Forall2 (λ x y, f x = Ok y) xs ys.
Proof.
  revert ys. induction xs as [|x xs IH]; intros ys H; simpl in H.
  - injection H as <-. constructor.
  - bind_inv H. injection H as <-. constructor; auto.
Qed.

Lemma for_each_returns {A B} (f : A → result B) xs :
  Forall (λ x, returns (f x)) xs → returns (for_each f xs).
Proof.
  induction 1 as [|x xs [y Hy] _ [ys Hys]]; simpl.
  - by eexists.
  - rewrite Hy; simpl. rewrite Hys; simpl. by eexists.
Qed.

Lemma getitem_Ok v k x :
  getitem v k = Ok x → ∃ d, v = JDict d ∧ assoc k d = Some x.
Proof.
  destruct v; simpl; try discriminate.
  destruct (assoc k d) eqn:E; [|discriminate].
  intros [= <-]. eauto.
Qed.

(** ** The capability map (C1) *)

Lemma capabilities_Ok metadata flags caps :
  for_each (capability metadata) flags = Ok caps →
  caps.*1 = flags.*1 ∧
  ∀ k flag, (k, flag) ∈ flags →
    ∃ raw_caps v, getitem metadata "capabilities" = Ok raw_caps ∧
                  getitem raw_caps flag = Ok v ∧ (k, v) ∈ caps.
Proof.
  intros H%for_each_Ok. induction H as [|[k f] [k' v] flags caps Hkv _ [IH1 IH2]].
  - split; [done|]. intros k f Hin. by apply elem_of_nil in Hin.
  - unfold capability in Hkv; simpl in Hkv. bind_inv Hkv. injection Hkv as <- <-.
    split; [simpl; by f_equal|].
    intros k2 f2 [[= -> ->]|Hin]%elem_of_cons.
    + exists a, a0. repeat split; auto. by left.
    + destruct (IH2 _ _ Hin) as (rc & x & ? & ? & ?).
      exists rc, x. repeat split; auto. by right.
Qed.

Lemma assoc_NoDup k v (d : list (string * json)) :
  NoDup (d.*1) → (k, v) ∈ d → assoc k d = Some v.
Proof.
  induction d as [|[k' v'] d IH]; simpl; intros Hnd Hin.
  - by apply elem_of_nil in Hin.
  - apply NoDup_cons in Hnd as [Hk' Hnd].
    destruct (String.eqb_spec k k') as [->|Hne].
    + apply elem_of_cons in Hin as [[= ->]|Hin]; [done|].
      exfalso. apply Hk'. apply list_elem_of_fmap. by exists (k', v).
    + apply elem_of_cons in Hin as [[= -> ->]|Hin]; [done | auto].
Qed.

Lemma capability_keys_NoDup : NoDup capability_keys.
Proof. apply (bool_decide_unpack _). by vm_compute. Qed.

(** C1, as the code has it: an entry the converter returns has a capability
    map with exactly the seven fixed keys, in the order of the literal, and
    each key holds the value the raw record stores under the flag it is read
    from; so a record that is accepted stores all seven flags, and none is
    filled in. *)
Theorem capability_map_fixed_keys container_repr set_iter metadata entry :
  convert_to_mobot_format container_repr set_iter metadata = Ok entry →
  ∃ caps,
    getitem entry "capabilities" = Ok (JDict caps) ∧
    caps.*1 = capability_keys ∧
    ∀ k flag, (k, flag) ∈ capability_flags →
      ∃ raw_caps v, getitem metadata "capabilities" = Ok raw_caps ∧
                    getitem raw_caps flag = Ok v ∧
                    assoc k caps = Some v.
Proof.
  intros H. unfold convert_to_mobot_format in H. bind_inv H.
  injection H as <-.
  match goal with
  | E : for_each (capability _) _ = Ok ?c |- _ =>
      exists c; destruct (capabilities_Ok _ _ _ E) as [Hk Hv]
  end.
  split; [reflexivity|]. split; [exact Hk|].
  intros k flag Hin. destruct (Hv _ _ Hin) as (rc & v & ? & ? & ?).
  exists rc, v. repeat split; auto.
  apply assoc_NoDup; [|done]. rewrite Hk. apply capability_keys_NoDup.
Qed.

Lemma capability_map_fixed_keys_witness :
  convert_to_mobot_format no_repr set_forward sample_raw = Ok sample_entry ∧
  ∃ caps,
    getitem sample_entry "capabilities" = Ok (JDict caps) ∧
    caps.*1 = capability_keys ∧
    ∀ k flag, (k, flag) ∈ capability_flags →
      ∃ raw_caps v, getitem sample_raw "capabilities" = Ok raw_caps ∧
                    getitem raw_caps flag = Ok v ∧
                    assoc k caps = Some v.
Proof.
  split; [reflexivity|].
  apply (capability_map_fixed_keys no_repr set_forward sample_raw sample_entry).
  reflexivity.
Defined.

(** C1 as the spec words it fails: a record that has every other key but no
    [has_color_control] flag is not converted to an entry whose
    [color_control] is false; the converter raises [KeyError]. *)
Lemma absent_flag_not_defaulted :
  let raw := sample_without_flag "has_color_control" in
  (∃ raw_caps, getitem raw "capabilities" = Ok raw_caps ∧
               getitem raw_caps "has_color_control"
               = Raise (KeyError "has_color_control")) ∧
  convert_to_mobot_format no_repr set_forward raw
  = Raise (KeyError "has_color_control") ∧
  ¬ ∃ entry caps,
      convert_to_mobot_format no_repr set_forward raw = Ok entry ∧
      getitem entry "capabilities" = Ok (JDict caps) ∧
      assoc "color_control" caps = Some (JBool false).
Proof.
  split; [|split].
  - eexists. split; reflexivity.
  - reflexivity.
  - intros (entry & caps & H & _). discriminate H.
Qed.

(** ** Media placeholders (C7) *)

Lemma media_placeholders_Ok ms ps :
  media_placeholders ms = Ok ps →
  Forall (λ p, ∃ m name type flag,
            m ∈ ms ∧
            getitem m "name" = Ok name ∧
            getitem m "type" = Ok type ∧
            getitem m "is_placeholder" = Ok flag ∧
            truthy flag = true ∧
            p = JDict [("name", name); ("type", type); ("placeholder", flag)]) ps.
Proof.
  revert ps. induction ms as [|m ms IH]; intros ps H; simpl in H.
  - injection H as <-. constructor.
  - apply bind_Ok in H as (flag & Hflag & H).
    destruct (truthy flag) eqn:Ht.
    + apply bind_Ok in H as (p & Hp & H). apply bind_Ok in H as (ps' & Hps & H).
      injection H as <-. unfold media_placeholder in Hp. bind_inv Hp.
      injection Hp as <-. constructor.
      * exists m, a, a0, a1. rewrite E1 in Hflag. injection Hflag as ->.
        repeat split; auto. by left.
      * eapply Forall_impl; [by apply IH|].
        intros p (m' & n & t & f & Hin & ?). exists m', n, t, f.
        split; [by right | done].
    + eapply Forall_impl; [by apply IH|].
      intros p (m' & n & t & f & Hin & ?). exists m', n, t, f.
      split; [by right | done].
Qed.

(** C7: every item of [media_placeholders] in a returned entry is built from
    a media asset of the raw record whose [is_placeholder] flag holds (for a
    JSON boolean: is [true]), and carries that flag as its [placeholder]. *)
Theorem media_placeholders_only_placeholders container_repr set_iter metadata entry :
  convert_to_mobot_format container_repr set_iter metadata = Ok entry →
  ∃ elements placeholders assets ms,
    getitem entry "customizable_elements" = Ok elements ∧
    getitem elements "media_placeholders" = Ok (JList placeholders) ∧
    getitem metadata "media_assets" = Ok assets ∧
    iter assets = Ok ms ∧
    ∀ p, p ∈ placeholders →
      ∃ m name type flag,
        m ∈ ms ∧
        getitem m "name" = Ok name ∧
        getitem m "type" = Ok type ∧
        getitem m "is_placeholder" = Ok flag ∧
        truthy flag = true ∧
        (∀ b, flag = JBool b → b = true) ∧
        p = JDict [("name", name); ("type", type); ("placeholder", flag)].
Proof.
  intros H. unfold convert_to_mobot_format in H. bind_inv H.
  injection H as <-.
  match goal with
  | E : media_placeholders ?ms = Ok ?ps, E1 : iter ?as_ = Ok ?ms,
    E2 : getitem metadata "media_assets" = Ok ?as_ |- _ =>
      eexists _, ps, as_, ms;
      split; [reflexivity|]; split; [reflexivity|];
      split; [exact E2|]; split; [exact E1|];
      pose proof (media_placeholders_Ok _ _ E) as Hall
  end.
  intros p Hp. rewrite Forall_forall in Hall.
  destruct (Hall _ Hp) as (m & n & t & f & ? & ? & ? & ? & Ht & ->).
  exists m, n, t, f. repeat split; auto.
  intros b ->. exact Ht.
Qed.

Lemma media_placeholders_only_placeholders_witness :
  convert_to_mobot_format no_repr set_forward sample_raw = Ok sample_entry ∧
  ∃ elements placeholders assets ms,
    getitem sample_entry "customizable_elements" = Ok elements ∧
    getitem elements "media_placeholders" = Ok (JList placeholders) ∧
    getitem sample_raw "media_assets" = Ok assets ∧
    iter assets = Ok ms ∧
    ∀ p, p ∈ placeholders →
      ∃ m name type flag,
        m ∈ ms ∧
        getitem m "name" = Ok name ∧
        getitem m "type" = Ok type ∧
        getitem m "is_placeholder" = Ok flag ∧
        truthy flag = true ∧
        (∀ b, flag = JBool b → b = true) ∧
        p = JDict [("name", name); ("type", type); ("placeholder", flag)].
Proof.
  split; [reflexivity|].
  apply (media_placeholders_only_placeholders no_repr set_forward sample_raw).
  reflexivity.
Defined.

(** ** Which records are converted (C2) *)

Lemma has_key_getitem k v : has_key k v = true → returns (getitem v k).
Proof.
  destruct v; simpl; try discriminate.
  intros [x Hx]%bool_decide_eq_true. rewrite Hx. by eexists.
Qed.

Lemma has_keys_getitem ks v k :
  has_keys ks v = true → k ∈ ks → returns (getitem v k).
Proof.
  unfold has_keys. rewrite forallb_forall. intros H Hin.
  apply has_key_getitem, H. by apply list_elem_of_In.
Qed.

Lemma field_getitem k p v :
  field k p v = true → ∃ x, getitem v k = Ok x ∧ p x = true.
Proof.
  destruct v; simpl; try discriminate.
  destruct (assoc k d); [eauto | discriminate].
Qed.

Lemma list_of_Forall p v :
  list_of p v = true → ∃ l, v = JList l ∧ Forall (λ x, p x = true) l.
Proof.
  destruct v; simpl; try discriminate.
  intros H. exists l. split; [done|].
  rewrite forallb_forall in H. apply Forall_forall.
  intros x Hx. by apply H, list_elem_of_In.
Qed.

(** Reads the listed keys of [v] off a [has_keys] hypothesis. *)
Ltac read_key H k :=
  let x := fresh "x" in
  let E := fresh "E" in
  destruct (has_keys_getitem _ _ k H) as [x E];
  [repeat first [by left | right] | rewrite E; simpl].

Lemma py_sum_returns cs acc :
  Forall (λ c, composition_ok c = true) cs →
  returns (py_sum (λ c, getitem c "layer_count") cs acc).
Proof.
  intros H. revert acc. induction H as [|c cs Hc _ IH]; intros acc; simpl.
  - by eexists.
  - apply andb_prop in Hc as [(x & -> & Hx)%field_getitem _]; simpl.
    destruct x; try discriminate; simpl; apply IH.
Qed.

Lemma resolution_returns container_repr c :
  composition_ok c = true → returns (resolution container_repr c).
Proof.
  intros [_ H]%andb_prop. unfold resolution.
  read_key H "width". read_key H "height". by eexists.
Qed.

Lemma text_layer_returns t :
  has_keys ["layer_name"; "source_text"; "comp_id"] t = true →
  returns (text_layer t).
Proof.
  intros H. unfold text_layer.
  read_key H "layer_name". read_key H "source_text". read_key H "comp_id".
  by eexists.
Qed.

Lemma usage_scenario_returns o :
  has_keys ["type"; "description"; "difficulty"; "impact"] o = true →
  returns (usage_scenario o).
Proof.
  intros H. unfold usage_scenario.
  read_key H "type". read_key H "description". read_key H "difficulty".
  read_key H "impact". by eexists.
Qed.

Lemma effect_name_returns e :
  has_keys ["name"] e = true → returns (getitem e "name").
Proof. intros H. read_key H "name". by eexists. Qed.

Lemma media_placeholders_returns ms :
  Forall (λ m, media_asset_ok m = true) ms → returns (media_placeholders ms).
Proof.
  induction 1 as [|m ms Hm _ [ps IH]]; simpl.
  - by eexists.
  - apply field_getitem in Hm as (flag & Hflag & Hm). rewrite Hflag; simpl.
    destruct (truthy flag).
    + change (has_keys ["name"; "type"] m = true) in Hm.
      unfold media_placeholder. read_key Hm "name". read_key Hm "type".
      rewrite Hflag; simpl. rewrite IH; simpl. by eexists.
    + rewrite IH. by eexists.
Qed.

Lemma capabilities_returns metadata :
  field "capabilities" (has_keys (capability_flags.*2)) metadata = true →
  returns (for_each (capability metadata) capability_flags).
Proof.
  intros (caps & Hcaps & H)%field_getitem.
  apply for_each_returns, Forall_forall. intros [k flag] Hin.
  unfold capability. rewrite Hcaps; simpl.
  destruct (has_keys_getitem _ _ flag H) as [v ->]; [|by eexists].
  apply list_elem_of_fmap. by exists (k, flag).
Qed.

Lemma bind_ok {A B} (r : result A) (a : A) (k : A → result B) :
  r = Ok a → r ≫= k = k a.
Proof. by intros ->. Qed.

Lemma assoc_del k k' (d : list (string * json)) :
  assoc k' (filter (λ kv, kv.1 ≠ k) d)
  = if String.eqb k' k then None else assoc k' d.
Proof.
  induction d as [|[k0 v] d IH]; simpl.
  - by destruct (String.eqb k' k).
  - rewrite filter_cons. destruct (decide ((k0, v).1 ≠ k)) as [Hne|Heq].
    + simpl. rewrite IH. simpl in Hne.
      destruct (String.eqb_spec k' k0) as [->|?]; [|done].
      destruct (String.eqb_spec k0 k); [congruence | done].
    + apply dec_stable in Heq. simpl in Heq. subst k0. rewrite IH.
      destruct (String.eqb_spec k' k) as [->|?]; [done|].
      destruct (String.eqb_spec k' k); [congruence | done].
Qed.

Lemma getitem_del k k' d :
  getitem (del_key k (JDict d)) k'
  = if String.eqb k' k then Raise (KeyError k') else getitem (JDict d) k'.
Proof. simpl. rewrite assoc_del. by destruct (String.eqb k' k). Qed.

Lemma capabilities_raise metadata e :
  getitem metadata "capabilities" = Raise e →
  for_each (capability metadata) capability_flags = Raise e.
Proof.
  intros H. unfold capability_flags. cbn [for_each].
  unfold capability. by rewrite H.
Qed.

Lemma capabilities_ext m1 m2 flags :
  getitem m1 "capabilities" = getitem m2 "capabilities" →
  for_each (capability m1) flags = for_each (capability m2) flags.
Proof.
  intros H. induction flags as [|kf flags IH]; simpl; [done|].
  rewrite IH. unfold capability. by rewrite H.
Qed.

(** What a well-formed record holds under each key the converter reads. *)
Lemma well_formed_reads container_repr metadata :
  well_formed metadata = true →
  ∃ d cs ts ms os es,
    metadata = JDict d ∧
    has_keys read_keys metadata = true ∧
    getitem metadata "compositions" = Ok (JList cs) ∧
    getitem metadata "text_layers" = Ok (JList ts) ∧
    getitem metadata "media_assets" = Ok (JList ms) ∧
    getitem metadata "opportunities" = Ok (JList os) ∧
    getitem metadata "effects" = Ok (JList es) ∧
    returns (py_sum (λ c, getitem c "layer_count") cs 0) ∧
    returns (for_each (capability metadata) capability_flags) ∧
    returns (for_each text_layer ts) ∧
    returns (media_placeholders ms) ∧
    returns (for_each usage_scenario os) ∧
    returns (for_each (λ e, getitem e "name") es) ∧
    returns (for_each (resolution container_repr) cs).
Proof.
  unfold well_formed. intros H.
  do 6 (apply andb_prop in H as [H ?]).
  repeat match goal with
  | F : field _ (list_of _) _ = true |- _ =>
      apply field_getitem in F as (? & ? & (? & -> & ?)%list_of_Forall)
  end.
  destruct metadata as [| | | | |d]; try discriminate.
  eexists d, _, _, _, _, _. repeat (split; [done|]).
  split; [by apply py_sum_returns|].
  split; [by apply capabilities_returns|].
  split; [apply for_each_returns; eapply Forall_impl; [done|]; apply text_layer_returns|].
  split; [by apply media_placeholders_returns|].
  split; [apply for_each_returns; eapply Forall_impl; [done|]; apply usage_scenario_returns|].
  split; [apply for_each_returns; eapply Forall_impl; [done|]; apply effect_name_returns|].
  apply for_each_returns. eapply Forall_impl; [done|].
  intros c. apply resolution_returns.
Qed.

(** Advances past the first step of a computation whose value is known. *)
Ltac ok_step :=
  lazymatch goal with
  | |- (len (JList ?l) ≫= ?k) = _ =>
      rewrite (bind_ok (len (JList l)) _ k eq_refl); cbv beta
  | |- (iter (JList ?l) ≫= ?k) = _ =>
      rewrite (bind_ok (iter (JList l)) _ k eq_refl); cbv beta
  | |- (?r ≫= ?k) = _ =>
      match goal with
      | E : r = Ok ?a |- _ => rewrite (bind_ok r a k E); cbv beta
      end
  end.

(** The same on a record from which the key [k] was deleted: a step that
    subscripts another key goes on as before. *)
Ltac del_step :=
  lazymatch goal with
  | |- (getitem (del_key ?k (JDict ?d)) ?k' ≫= _) = _ =>
      rewrite (getitem_del k k' d);
      let b := eval vm_compute in (String.eqb k' k) in
      change (String.eqb k' k) with b; cbv iota
  | |- (for_each (capability (del_key ?k (JDict ?d))) _ ≫= _) = _ =>
      rewrite (capabilities_ext (del_key k (JDict d)) (JDict d))
        by (rewrite getitem_del; reflexivity)
  | _ => idtac
  end;
  try ok_step.

(** C2, as the code has it: a record that holds every key the converter
    reads is converted to an entry; and when any one of those keys is
    deleted from it, a required one or an optional one alike, the converter
    raises [KeyError] for that key and substitutes no default. *)
Theorem convert_needs_every_key container_repr set_iter metadata :
  well_formed metadata = true →
  returns (convert_to_mobot_format container_repr set_iter metadata) ∧
  ∀ k, k ∈ read_keys →
    convert_to_mobot_format container_repr set_iter (del_key k metadata)
    = Raise (KeyError k).
Proof.
  intros Hwf.
  destruct (well_formed_reads container_repr _ Hwf)
    as (d & cs & ts & ms & os & es & -> & Hk & Hc & Ht & Hm & Ho & He
        & [n Hn] & [caps Hcaps] & [tl Htl] & [ph Hph] & [us Hus]
        & [ef Hef] & [rs Hrs]).
  destruct (has_keys_getitem _ _ "file_path" Hk) as [v1 E1];
    [repeat first [by left | right]|].
  destruct (has_keys_getitem _ _ "file_name" Hk) as [v2 E2];
    [repeat first [by left | right]|].
  destruct (has_keys_getitem _ _ "parsed_at" Hk) as [v3 E3];
    [repeat first [by left | right]|].
  destruct (has_keys_getitem _ _ "categories" Hk) as [v4 E4];
    [repeat first [by left | right]|].
  destruct (has_keys_getitem _ _ "tags" Hk) as [v5 E5];
    [repeat first [by left | right]|].
  destruct (has_keys_getitem _ _ "bit_depth" Hk) as [v6 E6];
    [repeat first [by left | right]|].
  destruct (has_keys_getitem _ _ "expression_engine" Hk) as [v7 E7];
    [repeat first [by left | right]|].
  split.
  - eexists. unfold convert_to_mobot_format. repeat ok_step. reflexivity.
  - intros k Hin. unfold read_keys in Hin.
    repeat (apply elem_of_cons in Hin as [->|Hin]);
      [..|by apply elem_of_nil in Hin];
      unfold convert_to_mobot_format; repeat del_step; try reflexivity.
    rewrite (capabilities_raise _ (KeyError "capabilities"))
      by (by rewrite getitem_del).
    reflexivity.
Qed.

Lemma convert_needs_every_key_witness :
  well_formed sample_raw = true ∧
  returns (convert_to_mobot_format no_repr set_forward sample_raw) ∧
  ∀ k, k ∈ read_keys →
    convert_to_mobot_format no_repr set_forward (del_key k sample_raw)
    = Raise (KeyError k).
Proof.
  split; [reflexivity|].
  apply (convert_needs_every_key no_repr set_forward sample_raw).
  reflexivity.
Defined.

(** C2 as the spec words it fails: a record that lacks nothing but its
    text layers (or its media assets, opportunities, effects or bit depth)
    is not converted with an empty default; the converter raises
    [KeyError]. *)
Lemma missing_optional_field_raises :
  Forall (λ k,
      well_formed sample_raw = true ∧
      convert_to_mobot_format no_repr set_forward (del_key k sample_raw)
      = Raise (KeyError k) ∧
      ¬ returns (convert_to_mobot_format no_repr set_forward (del_key k sample_raw)))
    ["text_layers"; "media_assets"; "opportunities"; "effects"; "bit_depth"].
Proof.
  repeat constructor; by intros [? ?].
Qed.

(** ** Determinism of the converter (C8) *)

Lemma set_forward_semantics : set_semantics set_forward.
Proof.
  intros xs. split; [apply NoDup_remove_dups|].
  intros x. apply elem_of_remove_dups.
Qed.

Lemma set_backward_semantics : set_semantics set_backward.
Proof.
  intros xs. unfold set_backward. split.
  - rewrite reverse_Permutation. apply NoDup_remove_dups.
  - intros x. rewrite elem_of_reverse. apply elem_of_remove_dups.
Qed.

Lemma set_semantics_Permutation it1 it2 xs :
  set_semantics it1 → set_semantics it2 → it1 xs ≡ₚ it2 xs.
Proof.
  intros H1 H2. destruct (H1 xs) as [Hn1 He1], (H2 xs) as [Hn2 He2].
  apply NoDup_Permutation; [done..|].
  intros x. by rewrite He1, He2.
Qed.

Lemma same_up_to_resolution_order_intro fields details rs1 rs2 :
  rs1 ≡ₚ rs2 → NoDup rs1 → NoDup rs2 →
  same_up_to_resolution_order
    (JDict (fields ++ [("technical_details",
       JDict (details ++ [("resolutions", JList (JStr <$> rs1))]))]))
    (JDict (fields ++ [("technical_details",
       JDict (details ++ [("resolutions", JList (JStr <$> rs2))]))])).
Proof. intros. by exists fields, details, rs1, rs2. Qed.

(** C8, as the code has it: the converter is a function of the record and
    of the order in which the interpreter iterates over a set.  Under any
    two such orders it raises the same exception, or returns two entries
    that are equal in every field but for the order of [resolutions], which
    holds the same distinct strings in both. *)
Theorem convert_deterministic_up_to_set_order
    container_repr it1 it2 metadata :
  set_semantics it1 → set_semantics it2 →
  match convert_to_mobot_format container_repr it1 metadata,
        convert_to_mobot_format container_repr it2 metadata with
  | Ok entry1, Ok entry2 => same_up_to_resolution_order entry1 entry2
  | Raise e1, Raise e2 => e1 = e2
  | _, _ => False
  end.
Proof.
  intros H1 H2. unfold convert_to_mobot_format.
  repeat match goal with
  | |- context [?r ≫= _] =>
      lazymatch r with
      | Ok _ => fail
      | Raise _ => fail
      | _ => destruct r; cbn [mbind result_bind]; [|reflexivity]
      end
  end.
  apply (same_up_to_resolution_order_intro
           [_; _; _; _; _; _; _; _; _; _] [_; _; _]).
  - by apply set_semantics_Permutation.
  - apply H1.
  - apply H2.
Qed.

Lemma convert_deterministic_up_to_set_order_witness :
  set_semantics set_forward ∧ set_semantics set_backward ∧
  match convert_to_mobot_format no_repr set_forward sample_raw,
        convert_to_mobot_format no_repr set_backward sample_raw with
  | Ok entry1, Ok entry2 => same_up_to_resolution_order entry1 entry2
  | Raise e1, Raise e2 => e1 = e2
  | _, _ => False
  end.
Proof.
  split; [apply set_forward_semantics|].
  split; [apply set_backward_semantics|].
  apply (convert_deterministic_up_to_set_order no_repr set_forward set_backward
           sample_raw set_forward_semantics set_backward_semantics).
Defined.

(** C8 as the spec words it fails: under two iteration orders that both
    respect the semantics of a set, the same record is converted to two
    entries that differ, in the order of [resolutions]. *)
Lemma resolution_order_not_fixed :
  set_semantics set_forward ∧ set_semantics set_backward ∧
  convert_to_mobot_format no_repr set_forward sample_raw
  ≠ convert_to_mobot_format no_repr set_backward sample_raw.
Proof.
  split; [apply set_forward_semantics|].
  split; [apply set_backward_semantics|].
  intros H. vm_compute in H. discriminate H.
Qed.

(** ** The report (C3, C5) *)

(** C3 at the failing input: an entry that lists the category ["A"] twice
    adds two to its count, so the report gives two templates for ["A"] in a
    catalog of one template. *)
Theorem aggregate_counts_each_occurrence :
  _aggregate_categories [entry_with_categories ["A"; "A"]]
  = Ok {[ KStr "A" := 2 ]} ∧
  _aggregate_tags [JDict [("tags", JList [JStr "hd"; JStr "hd"; JStr "hd"])]]
  = Ok {[ KStr "hd" := 3 ]}.
Proof. split; vm_compute; reflexivity. Qed.

(** The aggregation example of the spec, where no entry repeats a value. *)
Example aggregate_spec_example :
  _aggregate_categories example_entries
  = Ok (<[KStr "A" := 2]> (<[KStr "B" := 2]> {[ KStr "C" := 1 ]})).
Proof. vm_compute. reflexivity. Qed.

Lemma count_values_foldl vs counts counts' :
  count_values vs counts = Ok counts' →
  ∃ ks, for_each hash_key vs = Ok ks ∧ counts' = foldl increment counts ks.
Proof.
  revert counts. induction vs as [|v vs IH]; intros counts H; simpl in H.
  - injection H as <-. by exists [].
  - apply bind_Ok in H as (k & Hk & H). destruct (IH _ H) as (ks & Hks & ->).
    exists (k :: ks). simpl. by rewrite Hk, Hks.
Qed.

Lemma foldl_increment_lookup ks counts k :
  default 0 (foldl increment counts ks !! k)
  = default 0 (counts !! k) + Z.of_nat (length (filter (λ k', k' = k) ks)).
Proof.
  revert counts. induction ks as [|k0 ks IH]; intros counts; simpl; [lia|].
  rewrite IH, filter_cons. unfold increment.
  destruct (decide (k0 = k)) as [->|Hne].
  - rewrite lookup_insert_eq. simpl. lia.
  - by rewrite lookup_insert_ne.
Qed.

(** What the aggregation computes: for each value, the number of times it is
    listed, over all entries. *)
Lemma aggregate_counts_occurrences field catalog_data counts counts' k :
  aggregate field catalog_data counts = Ok counts' →
  default 0 (counts' !! k)
  = default 0 (counts !! k) + occurrences field k catalog_data.
Proof.
  unfold occurrences. revert counts.
  induction catalog_data as [|t ts IH]; intros counts H; simpl in H.
  - injection H as <-. simpl. lia.
  - bind_inv H. apply count_values_foldl in E1 as (ks & Hks & ->).
    rewrite (IH _ H), foldl_increment_lookup.
    assert (listed field t = ks) as Hl.
    { unfold listed. rewrite E; simpl. rewrite E0; simpl. by rewrite Hks. }
    change (mjoin (listed field <$> t :: ts))
      with (listed field t ++ mjoin (listed field <$> ts))%list.
    rewrite Hl, filter_app, length_app. lia.
Qed.

(** It is the number of entries that list the value when no entry lists a
    value twice. *)
Lemma occurrences_NoDup field k catalog_data :
  Forall (λ t, NoDup (listed field t)) catalog_data →
  occurrences field k catalog_data = entries_listing field k catalog_data.
Proof.
  unfold occurrences, entries_listing.
  induction 1 as [|t ts Hnd _ IH]; [done|].
  change (mjoin (listed field <$> t :: ts))
    with (listed field t ++ mjoin (listed field <$> ts))%list.
  rewrite filter_app, length_app, filter_cons, Nat2Z.inj_add, IH.
  assert (length (filter (λ k', k' = k) (listed field t))
          = if decide (k ∈ listed field t) then 1%nat else 0%nat) as ->.
  { clear -Hnd. induction Hnd as [|k0 ks Hk0 _ IH].
    - destruct (decide (k ∈ [])) as [Hin|]; [by apply elem_of_nil in Hin | done].
    - rewrite filter_cons.
      destruct (decide (k0 = k)) as [->|Hne]; cbn [length]; rewrite IH.
      + destruct (decide (k ∈ ks)); [done|].
        destruct (decide (k ∈ k :: ks)) as [|Hn]; [done|].
        exfalso. apply Hn. by left.
      + destruct (decide (k ∈ ks)), (decide (k ∈ k0 :: ks)) as [Hc|Hc]; try done.
        * exfalso. apply Hc. by right.
        * apply elem_of_cons in Hc as [?|?]; [congruence | done]. }
  destruct (decide (k ∈ listed field t)); simpl; lia.
Qed.

Lemma count_capability_cons cap t ts :
  entry_ok t = true →
  count_capability cap (t :: ts)
  = n ← count_capability cap ts; Ok (Z.b2z (flag_set cap t) + n).
Proof.
  destruct t as [| | | | |d]; try discriminate. simpl.
  destruct (assoc "capabilities" d) as [c|]; simpl; [|done].
  by destruct c.
Qed.

Lemma count_capability_spec cap catalog_data :
  Forall (λ t, entry_ok t = true) catalog_data →
  count_capability cap catalog_data = Ok (entries_with cap catalog_data).
Proof.
  unfold entries_with. induction 1 as [|t ts Ht _ IH]; [done|].
  rewrite count_capability_cons, IH by done. cbn [mbind result_bind].
  rewrite filter_cons. destruct (flag_set cap t).
  - rewrite decide_True by done. cbn [length Z.b2z]. f_equal. lia.
  - rewrite decide_False by done. done.
Qed.

Lemma count_values_returns vs counts :
  forallb hashable vs = true → returns (count_values vs counts).
Proof.
  revert counts. induction vs as [|v vs IH]; intros counts H; simpl.
  - by eexists.
  - apply andb_prop in H as [Hv H].
    destruct v; try discriminate; simpl; by apply IH.
Qed.

Lemma aggregate_returns field catalog_data counts :
  (field = "categories" ∨ field = "tags") →
  Forall (λ t, entry_ok t = true) catalog_data →
  returns (aggregate field catalog_data counts).
Proof.
  intros Hf H. revert counts.
  induction H as [|t ts Ht _ IH]; intros counts; simpl; [by eexists|].
  destruct t as [| | | | |d]; try discriminate. simpl in Ht |- *.
  apply andb_prop in Ht as [[_ Hc]%andb_prop Htg].
  assert (listing_ok field d = true) as Hl by (by destruct Hf as [->| ->]).
  unfold listing_ok in Hl.
  destruct (iter (default (JList []) (assoc field d))) as [vs|]; [|done]; simpl.
  destruct (count_values_returns vs counts Hl) as [counts' ->]; simpl.
  apply IH.
Qed.

(** C5, as the code has it: from entries it can read, report generation
    returns a report whose entry count is the length of its entry list, the
    given one, and whose summary holds that count and the number of entries
    with the flag set for three of the seven capabilities: text
    replacement, image replacement and modular. *)
Theorem report_summary_counts now catalog_data :
  Forall (λ t, entry_ok t = true) catalog_data →
  ∃ r, generate_catalog_report now catalog_data = Ok r ∧
       templates r = catalog_data ∧
       total_templates r = Z.of_nat (length (templates r)) ∧
       summary r =
         [ ("total_templates", Z.of_nat (length catalog_data));
           ("with_text_replacement", entries_with "text_replacement" catalog_data);
           ("with_image_replacement", entries_with "image_replacement" catalog_data);
           ("modular_templates", entries_with "modular" catalog_data) ].
Proof.
  intros H. unfold generate_catalog_report.
  rewrite !count_capability_spec by done. cbn [mbind result_bind].
  destruct (aggregate_returns "categories" catalog_data ∅) as [cats Hc]; auto.
  destruct (aggregate_returns "tags" catalog_data ∅) as [tgs Ht]; auto.
  unfold _aggregate_categories, _aggregate_tags. rewrite Hc, Ht.
  cbn [mbind result_bind]. eexists. repeat split.
Qed.

Lemma report_summary_counts_witness :
  Forall (λ t, entry_ok t = true) [sample_entry; entry_with_capability "modular" true] ∧
  ∃ r, generate_catalog_report "2025-01-01T00:00:00"
         [sample_entry; entry_with_capability "modular" true] = Ok r ∧
       templates r = [sample_entry; entry_with_capability "modular" true] ∧
       total_templates r = Z.of_nat (length (templates r)) ∧
       summary r =
         [ ("total_templates", 2);
           ("with_text_replacement", 1);
           ("with_image_replacement", 1);
           ("modular_templates", 2) ].
Proof.
  split; [by repeat constructor|].
  apply (report_summary_counts "2025-01-01T00:00:00"
           [sample_entry; entry_with_capability "modular" true]).
  by repeat constructor.
Defined.

(** C5 as the spec words it fails: two catalogs that differ in how many
    entries have [color_control] set get the same summary, so the summary
    does not hold that count. *)
Lemma summary_omits_color_control :
  let with_flag := [entry_with_capability "color_control" true] in
  let without_flag := [entry_with_capability "color_control" false] in
  entries_with "color_control" with_flag = 1 ∧
  entries_with "color_control" without_flag = 0 ∧
  ∃ r1 r2,
    generate_catalog_report "t" with_flag = Ok r1 ∧
    generate_catalog_report "t" without_flag = Ok r2 ∧
    summary r1 = summary r2 ∧
    summary r1 = [ ("total_templates", 1); ("with_text_replacement", 0);
                   ("with_image_replacement", 0); ("modular_templates", 0) ].
Proof.
  split; [done|]. split; [done|].
  eexists _, _. split; [by vm_compute|]. split; [by vm_compute|]. done.
Qed.

(** * Further properties *)

(** ** What the converter puts in an entry *)

Lemma length_chars s : length (chars s) = String.length s.
Proof.
  unfold chars. rewrite length_fmap.
  induction s as [|c s IH]; simpl; [done | by rewrite IH].
Qed.

Lemma len_iter v n vs : len v = Ok n → iter v = Ok vs → n = Z.of_nat (length vs).
Proof.
  destruct v; simpl; try discriminate; intros [= <-] [= <-];
    by rewrite ?length_chars, ?length_fmap.
Qed.

Lemma py_sum_Ok cs acc total :
  py_sum (λ c, getitem c "layer_count") cs acc = Ok total →
  ∃ counts,
    for_each (λ c, getitem c "layer_count") cs = Ok counts ∧
    Forall (λ v, is_count v = true) counts ∧
    total = acc + foldr (λ v n, int_value v + n) 0 counts.
Proof.
  revert acc. induction cs as [|c cs IH]; intros acc H; simpl in H.
  - injection H as <-. exists []. repeat split; [constructor | simpl; lia].
  - bind_inv H. destruct (IH _ H) as (counts & Hc & Hall & ->).
    exists (a :: counts). simpl. rewrite E, Hc. simpl.
    destruct a; try discriminate; injection E0 as <-;
      (repeat split; [by constructor | simpl; lia]).
Qed.

(** X1: in a returned entry, [compositions] is the number of compositions
    of the raw record and [total_layers] is the sum of their layer counts,
    each an integer (a boolean counting as 0 or 1). *)
Theorem entry_counts_compositions container_repr set_iter metadata entry :
  convert_to_mobot_format container_repr set_iter metadata = Ok entry →
  ∃ comps cs counts,
    getitem metadata "compositions" = Ok comps ∧
    iter comps = Ok cs ∧
    for_each (λ c, getitem c "layer_count") cs = Ok counts ∧
    Forall (λ v, is_count v = true) counts ∧
    getitem entry "compositions" = Ok (JInt (Z.of_nat (length cs))) ∧
    getitem entry "total_layers"
    = Ok (JInt (foldr (λ v n, int_value v + n) 0 counts)).
Proof.
  intros H. unfold convert_to_mobot_format in H. bind_inv H.
  injection H as <-.
  repeat match goal with
  | E1 : getitem metadata "compositions" = Ok ?x,
    E2 : getitem metadata "compositions" = Ok ?y |- _ =>
      rewrite E1 in E2; injection E2 as <-
  end.
  repeat match goal with
  | E1 : iter ?c = Ok ?x, E2 : iter ?c = Ok ?y |- _ =>
      rewrite E1 in E2; injection E2 as <-
  end.
  match goal with
  | E : py_sum _ ?cs 0 = Ok _, El : len ?c = Ok _, Ei : iter ?c = Ok ?cs,
    Eg : getitem metadata "compositions" = Ok ?c |- _ =>
      destruct (py_sum_Ok _ _ _ E) as (counts & Hc & Hall & ->);
      rewrite (len_iter _ _ _ El Ei);
      exists c, cs, counts
  end.
  repeat split; auto.
Qed.

Lemma entry_counts_compositions_witness :
  convert_to_mobot_format no_repr set_forward sample_raw = Ok sample_entry ∧
  ∃ comps cs counts,
    getitem sample_raw "compositions" = Ok comps ∧
    iter comps = Ok cs ∧
    for_each (λ c, getitem c "layer_count") cs = Ok counts ∧
    Forall (λ v, is_count v = true) counts ∧
    getitem sample_entry "compositions" = Ok (JInt (Z.of_nat (length cs))) ∧
    getitem sample_entry "total_layers"
    = Ok (JInt (foldr (λ v n, int_value v + n) 0 counts)).
Proof.
  split; [reflexivity|].
  apply (entry_counts_compositions no_repr set_forward sample_raw).
  reflexivity.
Defined.

Lemma media_placeholders_filter ms ps :
  media_placeholders ms = Ok ps →
  for_each media_placeholder (filter (λ m, is_placeholder m = true) ms) = Ok ps.
Proof.
  revert ps. induction ms as [|m ms IH]; intros ps H; simpl in H.
  - by injection H as <-.
  - apply bind_Ok in H as (flag & Hflag & H). rewrite filter_cons.
    assert (is_placeholder m = truthy flag) as Hp.
    { unfold is_placeholder. by rewrite Hflag. }
    destruct (truthy flag).
    + bind_inv H. injection H as <-. rewrite decide_True by done.
      simpl. rewrite E. simpl. by rewrite (IH _ E0).
    + rewrite decide_False by (by rewrite Hp). by apply IH.
Qed.

(** X2: the media placeholders of a returned entry are the placeholder
    assets of the raw record, all of them, in their order, each as its
    [name], [type] and flag: no placeholder asset is left out, and there
    are as many items as placeholder assets. *)
Theorem media_placeholders_complete container_repr set_iter metadata entry :
  convert_to_mobot_format container_repr set_iter metadata = Ok entry →
  ∃ assets ms elements placeholders,
    getitem metadata "media_assets" = Ok assets ∧
    iter assets = Ok ms ∧
    getitem entry "customizable_elements" = Ok elements ∧
    getitem elements "media_placeholders" = Ok (JList placeholders) ∧
    for_each media_placeholder (filter (λ m, is_placeholder m = true) ms)
    = Ok placeholders ∧
    length placeholders = length (filter (λ m, is_placeholder m = true) ms).
Proof.
  intros H. unfold convert_to_mobot_format in H. bind_inv H.
  injection H as <-.
  match goal with
  | E : media_placeholders ?ms = Ok ?ps, Ei : iter ?a = Ok ?ms |- _ =>
      exists a, ms; eexists _, ps;
      pose proof (media_placeholders_filter _ _ E) as Hf
  end.
  repeat split; auto.
  apply for_each_Ok in Hf. symmetry. by eapply Forall2_length.
Qed.

Lemma media_placeholders_complete_witness :
  convert_to_mobot_format no_repr set_forward sample_raw = Ok sample_entry ∧
  ∃ assets ms elements placeholders,
    getitem sample_raw "media_assets" = Ok assets ∧
    iter assets = Ok ms ∧
    getitem sample_entry "customizable_elements" = Ok elements ∧
    getitem elements "media_placeholders" = Ok (JList placeholders) ∧
    for_each media_placeholder (filter (λ m, is_placeholder m = true) ms)
    = Ok placeholders ∧
    length placeholders = length (filter (λ m, is_placeholder m = true) ms).
Proof.
  split; [reflexivity|].
  apply (media_placeholders_complete no_repr set_forward sample_raw).
  reflexivity.
Defined.

Lemma for_each_lookup {A B} (f : A → result B) xs ys :
  for_each f xs = Ok ys →
  length ys = length xs ∧
  ∀ i x, xs !! i = Some x → ∃ y, ys !! i = Some y ∧ f x = Ok y.
Proof.
  intros H%for_each_Ok. split; [symmetry; by eapply Forall2_length|].
  intros i x Hx. destruct (Forall2_lookup_l _ _ _ _ _ H Hx) as (y & ? & ?).
  by exists y.
Qed.

(** X3: the text layers, usage scenarios and effect names of a returned
    entry have one item for each text layer, opportunity and effect of the
    raw record, at the same position, made of that item's values under the
    renamed keys. *)
Theorem entry_lists_follow_record container_repr set_iter metadata entry :
  convert_to_mobot_format container_repr set_iter metadata = Ok entry →
  ∃ ts os es elements text_layers scenarios details effects,
    (getitem metadata "text_layers" ≫= iter) = Ok ts ∧
    (getitem metadata "opportunities" ≫= iter) = Ok os ∧
    (getitem metadata "effects" ≫= iter) = Ok es ∧
    getitem entry "customizable_elements" = Ok elements ∧
    getitem elements "text_layers" = Ok (JList text_layers) ∧
    getitem entry "usage_scenarios" = Ok (JList scenarios) ∧
    getitem entry "technical_details" = Ok details ∧
    getitem details "effects_used" = Ok (JList effects) ∧
    length text_layers = length ts ∧
    length scenarios = length os ∧
    length effects = length es ∧
    (∀ i t, ts !! i = Some t →
       ∃ name text comp,
         getitem t "layer_name" = Ok name ∧
         getitem t "source_text" = Ok text ∧
         getitem t "comp_id" = Ok comp ∧
         text_layers !! i
         = Some (JDict [("name", name); ("default_text", text); ("comp", comp)])) ∧
    (∀ i o, os !! i = Some o →
       ∃ type description difficulty impact,
         getitem o "type" = Ok type ∧
         getitem o "description" = Ok description ∧
         getitem o "difficulty" = Ok difficulty ∧
         getitem o "impact" = Ok impact ∧
         scenarios !! i
         = Some (JDict [("type", type); ("description", description);
                        ("difficulty", difficulty); ("impact", impact)])) ∧
    (∀ i e, es !! i = Some e →
       ∃ name, getitem e "name" = Ok name ∧ effects !! i = Some name).
Proof.
  intros H. unfold convert_to_mobot_format in H. bind_inv H.
  injection H as <-.
  match goal with
  | Et : for_each text_layer ?ts = Ok ?tl,
    Eo : for_each usage_scenario ?os = Ok ?us,
    Ee : for_each (λ e, getitem e "name") ?es = Ok ?ef |- _ =>
      exists ts, os, es; eexists _, tl, us, _, ef;
      destruct (for_each_lookup _ _ _ Et) as [Hlt Ht];
      destruct (for_each_lookup _ _ _ Eo) as [Hlo Ho];
      destruct (for_each_lookup _ _ _ Ee) as [Hle He]
  end.
  repeat match goal with
  | E : getitem metadata ?k = Ok ?v, Ei : iter ?v = Ok _
    |- (getitem metadata ?k ≫= iter) = _ ∧ _ =>
      split; [by rewrite E|]
  end.
  do 5 (split; [reflexivity|]).
  do 3 (split; [done|]).
  split; [|split].
  - intros i t Hi. destruct (Ht _ _ Hi) as (y & Hy & Hf).
    unfold text_layer in Hf. bind_inv Hf. injection Hf as <-. eauto 10.
  - intros i o Hi. destruct (Ho _ _ Hi) as (y & Hy & Hf).
    unfold usage_scenario in Hf. bind_inv Hf. injection Hf as <-. eauto 10.
  - intros i e Hi. destruct (He _ _ Hi) as (y & Hy & Hf). eauto.
Qed.

Lemma entry_lists_follow_record_witness :
  convert_to_mobot_format no_repr set_forward sample_raw = Ok sample_entry ∧
  ∃ ts os es elements text_layers scenarios details effects,
    (getitem sample_raw "text_layers" ≫= iter) = Ok ts ∧
    (getitem sample_raw "opportunities" ≫= iter) = Ok os ∧
    (getitem sample_raw "effects" ≫= iter) = Ok es ∧
    getitem sample_entry "customizable_elements" = Ok elements ∧
    getitem elements "text_layers" = Ok (JList text_layers) ∧
    getitem sample_entry "usage_scenarios" = Ok (JList scenarios) ∧
    getitem sample_entry "technical_details" = Ok details ∧
    getitem details "effects_used" = Ok (JList effects) ∧
    length text_layers = length ts ∧
    length scenarios = length os ∧
    length effects = length es ∧
    (∀ i t, ts !! i = Some t →
       ∃ name text comp,
         getitem t "layer_name" = Ok name ∧
         getitem t "source_text" = Ok text ∧
         getitem t "comp_id" = Ok comp ∧
         text_layers !! i
         = Some (JDict [("name", name); ("default_text", text); ("comp", comp)])) ∧
    (∀ i o, os !! i = Some o →
       ∃ type description difficulty impact,
         getitem o "type" = Ok type ∧
         getitem o "description" = Ok description ∧
         getitem o "difficulty" = Ok difficulty ∧
         getitem o "impact" = Ok impact ∧
         scenarios !! i
         = Some (JDict [("type", type); ("description", description);
                        ("difficulty", difficulty); ("impact", impact)])) ∧
    (∀ i e, es !! i = Some e →
       ∃ name, getitem e "name" = Ok name ∧ effects !! i = Some name).
Proof.
  split; [reflexivity|].
  apply (entry_lists_follow_record no_repr set_forward sample_raw).
  reflexivity.
Defined.

(** X4: a returned entry has exactly the eleven keys of the catalog format,
    in the order of the format, and carries the path, name, time stamp,
    categories, tags, bit depth and expression engine of the raw record
    unchanged: categories and tags keep their order and their repeats. *)
Theorem entry_keys_and_verbatim_fields container_repr set_iter metadata entry :
  convert_to_mobot_format container_repr set_iter metadata = Ok entry →
  ∃ fields details,
    entry = JDict fields ∧
    fields.*1 = entry_keys ∧
    getitem entry "template_path" = getitem metadata "file_path" ∧
    getitem entry "template_name" = getitem metadata "file_name" ∧
    getitem entry "analyzed_at" = getitem metadata "parsed_at" ∧
    getitem entry "categories" = getitem metadata "categories" ∧
    getitem entry "tags" = getitem metadata "tags" ∧
    getitem entry "technical_details" = Ok details ∧
    getitem details "bit_depth" = getitem metadata "bit_depth" ∧
    getitem details "expression_engine" = getitem metadata "expression_engine".
Proof.
  intros H. unfold convert_to_mobot_format in H. bind_inv H.
  injection H as <-.
  eexists _, (JDict [("bit_depth", _); ("expression_engine", _);
                     ("effects_used", _); ("resolutions", _)]).
  repeat match goal with
  | E : getitem metadata _ = Ok _ |- _ => rewrite E; clear E
  end.
  repeat (split; [reflexivity|]). reflexivity.
Qed.

Lemma entry_keys_and_verbatim_fields_witness :
  convert_to_mobot_format no_repr set_forward sample_raw = Ok sample_entry ∧
  ∃ fields details,
    sample_entry = JDict fields ∧
    fields.*1 = entry_keys ∧
    getitem sample_entry "template_path" = getitem sample_raw "file_path" ∧
    getitem sample_entry "template_name" = getitem sample_raw "file_name" ∧
    getitem sample_entry "analyzed_at" = getitem sample_raw "parsed_at" ∧
    getitem sample_entry "categories" = getitem sample_raw "categories" ∧
    getitem sample_entry "tags" = getitem sample_raw "tags" ∧
    getitem sample_entry "technical_details" = Ok details ∧
    getitem details "bit_depth" = getitem sample_raw "bit_depth" ∧
    getitem details "expression_engine" = getitem sample_raw "expression_engine".
Proof.
  split; [reflexivity|].
  apply (entry_keys_and_verbatim_fields no_repr set_forward sample_raw).
  reflexivity.
Defined.

(** X5: when the interpreter iterates a set as a set, the resolutions of a
    returned entry are the width-by-height strings of the compositions of
    the raw record: each of them, none other, none twice; so there are no
    more resolutions than compositions, and none when there is no
    composition. *)
Theorem resolutions_are_distinct container_repr set_iter metadata entry :
  set_semantics set_iter →
  convert_to_mobot_format container_repr set_iter metadata = Ok entry →
  ∃ cs details rs,
    (getitem metadata "compositions" ≫= iter) = Ok cs ∧
    getitem entry "technical_details" = Ok details ∧
    getitem details "resolutions" = Ok (JList (JStr <$> rs)) ∧
    NoDup rs ∧
    (∀ r, r ∈ rs ↔ ∃ c, c ∈ cs ∧ resolution container_repr c = Ok r) ∧
    (length rs ≤ length cs)%nat ∧
    (cs = [] → rs = []).
Proof.
  intros Hset H. unfold convert_to_mobot_format in H. bind_inv H.
  injection H as <-.
  match goal with
  | E : for_each (resolution _) ?cs = Ok ?rs, Ei : iter ?c = Ok ?cs,
    Eg : getitem metadata "compositions" = Ok ?c |- _ =>
      exists cs; eexists _, (set_iter rs);
      apply for_each_Ok in E; rename E into Hrs, rs into all;
      split; [by rewrite Eg|]
  end.
  destruct (Hset all) as [Hnd Hin].
  assert (length (set_iter all) ≤ length all)%nat as Hle.
  { apply submseteq_length, NoDup_submseteq; [done|]. intros x. apply Hin. }
  do 2 (split; [reflexivity|]). split; [done|]. split; [|split].
  - intros r. rewrite Hin. split.
    + intros Hr. apply list_elem_of_lookup in Hr as [i Hi].
      destruct (Forall2_lookup_r _ _ _ _ _ Hrs Hi) as (c & Hc & ?).
      exists c. split; [|done]. apply list_elem_of_lookup. by exists i.
    + intros (c & Hc & Hr). apply list_elem_of_lookup in Hc as [i Hi].
      destruct (Forall2_lookup_l _ _ _ _ _ Hrs Hi) as (r' & Hr' & Heq).
      rewrite Hr in Heq. injection Heq as <-.
      apply list_elem_of_lookup. by exists i.
  - rewrite (Forall2_length _ _ _ Hrs). exact Hle.
  - intros ->. apply Forall2_nil_inv_l in Hrs as ->.
    destruct (set_iter []) as [|x xs] eqn:Hx; [done|].
    simpl in Hle. lia.
Qed.

Lemma resolutions_are_distinct_witness :
  set_semantics set_forward ∧
  convert_to_mobot_format no_repr set_forward sample_raw = Ok sample_entry ∧
  ∃ cs details rs,
    (getitem sample_raw "compositions" ≫= iter) = Ok cs ∧
    getitem sample_entry "technical_details" = Ok details ∧
    getitem details "resolutions" = Ok (JList (JStr <$> rs)) ∧
    NoDup rs ∧
    (∀ r, r ∈ rs ↔ ∃ c, c ∈ cs ∧ resolution no_repr c = Ok r) ∧
    (length rs ≤ length cs)%nat ∧
    (cs = [] → rs = []).
Proof.
  split; [apply set_forward_semantics|]. split; [reflexivity|].
  apply (resolutions_are_distinct no_repr set_forward sample_raw sample_entry
           set_forward_semantics).
  reflexivity.
Defined.

Lemma getitem_agree d1 d2 k :
  assoc k d1 = assoc k d2 → getitem (JDict d1) k = getitem (JDict d2) k.
Proof. simpl. by intros ->. Qed.

(** X6: the converter reads the thirteen keys of [read_keys] and nothing
    else: two raw records that agree on them are converted alike, to the
    same entry or the same exception, whatever other keys they hold. *)
Theorem convert_reads_only_read_keys container_repr set_iter d1 d2 :
  (∀ k, k ∈ read_keys → assoc k d1 = assoc k d2) →
  convert_to_mobot_format container_repr set_iter (JDict d1)
  = convert_to_mobot_format container_repr set_iter (JDict d2).
Proof.
  intros H. unfold convert_to_mobot_format, capability.
  assert (∀ k, k ∈ read_keys → getitem (JDict d1) k = getitem (JDict d2) k)
    as Hg by (intros k Hk; by apply getitem_agree, H).
  rewrite !(Hg "file_path"), !(Hg "file_name"), !(Hg "parsed_at"),
    !(Hg "compositions"), !(Hg "capabilities"), !(Hg "categories"),
    !(Hg "tags"), !(Hg "text_layers"), !(Hg "media_assets"),
    !(Hg "opportunities"), !(Hg "bit_depth"), !(Hg "expression_engine"),
    !(Hg "effects")
    by (unfold read_keys; repeat first [by left | right]).
  reflexivity.
Qed.

Lemma convert_reads_only_read_keys_witness :
  let extra := [("nexrender_config", JDict []); ("version", JInt 3)] in
  match sample_raw with
  | JDict d =>
      (∀ k, k ∈ read_keys → assoc k (extra ++ d) = assoc k d) ∧
      convert_to_mobot_format no_repr set_forward (JDict (extra ++ d))
      = convert_to_mobot_format no_repr set_forward (JDict d)
  | _ => False
  end.
Proof.
  simpl.
  assert (∀ k, k ∈ read_keys →
            assoc k ([("nexrender_config", JDict []); ("version", JInt 3)]
                     ++ match sample_raw with JDict d => d | _ => [] end)
            = assoc k match sample_raw with JDict d => d | _ => [] end) as H.
  { intros k Hk. unfold read_keys in Hk.
    repeat (apply elem_of_cons in Hk as [->|Hk]); try reflexivity.
    by apply elem_of_nil in Hk. }
  split; [exact H|].
  exact (convert_reads_only_read_keys no_repr set_forward _ _ H).
Defined.

Lemma assoc_assoc_set k k' x d :
  assoc k' (assoc_set k x d) = if String.eqb k' k then Some x else assoc k' d.
Proof.
  induction d as [|[k0 v] d IH]; simpl.
  - by destruct (String.eqb k' k).
  - destruct (String.eqb_spec k k0) as [->|Hne]; simpl.
    + by destruct (String.eqb k' k0).
    + rewrite IH. destruct (String.eqb_spec k' k0) as [->|?]; [|done].
      destruct (String.eqb_spec k0 k); [congruence | done].
Qed.

Lemma getitem_set k k' x d :
  getitem (set_key k x (JDict d)) k'
  = if String.eqb k' k then Ok x else getitem (JDict d) k'.
Proof. simpl. rewrite assoc_assoc_set. by destruct (String.eqb k' k). Qed.

(** Advances past a step of the converter on a record in which the key [k]
    was set: a step that subscripts another key goes on as before. *)
Ltac set_step :=
  lazymatch goal with
  | |- (getitem (set_key ?k ?x (JDict ?d)) ?k' ≫= _) = _ =>
      rewrite (getitem_set k k' x d);
      let b := eval vm_compute in (String.eqb k' k) in
      change (String.eqb k' k) with b; cbv iota
  | |- (for_each (capability (set_key ?k ?x (JDict ?d))) _ ≫= _) = _ =>
      rewrite (capabilities_ext (set_key k x (JDict d)) (JDict d))
        by (rewrite getitem_set; reflexivity)
  | _ => idtac
  end;
  try ok_step.

(** X7: where the converter expects a list (compositions, text layers, media
    assets, opportunities, effects), a [null], a boolean or a number, in a
    record otherwise complete, makes it raise [TypeError]: such a value is
    not taken for an empty list. *)
Theorem convert_rejects_scalar_list container_repr set_iter metadata k v :
  well_formed metadata = true →
  k ∈ list_fields →
  scalar v = true →
  convert_to_mobot_format container_repr set_iter (set_key k v metadata)
  = Raise TypeError.
Proof.
  intros Hwf Hin Hv.
  destruct (well_formed_reads container_repr _ Hwf)
    as (d & cs & ts & ms & os & es & -> & Hk & Hc & Ht & Hm & Ho & He
        & [n Hn] & [caps Hcaps] & [tl Htl] & [ph Hph] & [us Hus]
        & [ef Hef] & [rs Hrs]).
  destruct (has_keys_getitem _ _ "file_path" Hk) as [v1 E1];
    [repeat first [by left | right]|].
  destruct (has_keys_getitem _ _ "file_name" Hk) as [v2 E2];
    [repeat first [by left | right]|].
  destruct (has_keys_getitem _ _ "parsed_at" Hk) as [v3 E3];
    [repeat first [by left | right]|].
  destruct (has_keys_getitem _ _ "categories" Hk) as [v4 E4];
    [repeat first [by left | right]|].
  destruct (has_keys_getitem _ _ "tags" Hk) as [v5 E5];
    [repeat first [by left | right]|].
  destruct (has_keys_getitem _ _ "bit_depth" Hk) as [v6 E6];
    [repeat first [by left | right]|].
  destruct (has_keys_getitem _ _ "expression_engine" Hk) as [v7 E7];
    [repeat first [by left | right]|].
  unfold list_fields in Hin.
  repeat (apply elem_of_cons in Hin as [->|Hin]);
    [..|by apply elem_of_nil in Hin];
    unfold convert_to_mobot_format; repeat set_step;
    cbn [mbind result_bind]; by destruct v.
Qed.

Lemma convert_rejects_scalar_list_witness :
  well_formed sample_raw = true ∧
  "text_layers" ∈ list_fields ∧
  scalar JNull = true ∧
  convert_to_mobot_format no_repr set_forward
    (set_key "text_layers" JNull sample_raw)
  = Raise TypeError.
Proof.
  split; [reflexivity|].
  assert ("text_layers" ∈ list_fields) as Hin
    by (unfold list_fields; repeat first [by left | right]).
  split; [exact Hin|]. split; [reflexivity|].
  exact (convert_rejects_scalar_list no_repr set_forward sample_raw
           "text_layers" JNull eq_refl Hin eq_refl).
Defined.

(** ** What the report counts *)

Lemma foldl_increment_positive ks counts :
  (∀ k n, counts !! k = Some n → 0 < n) →
  ∀ k n, foldl increment counts ks !! k = Some n → 0 < n.
Proof.
  revert counts. induction ks as [|k0 ks IH]; intros counts H; [done|].
  simpl. apply IH. intros k n. unfold increment.
  destruct (decide (k0 = k)) as [->|Hne].
  - rewrite lookup_insert_eq. intros [= <-].
    destruct (counts !! k) as [m|] eqn:Hm; simpl; [|lia].
    specialize (H _ _ Hm). lia.
  - rewrite lookup_insert_ne by done. apply H.
Qed.

Lemma aggregate_positive field catalog_data counts counts' :
  aggregate field catalog_data counts = Ok counts' →
  (∀ k n, counts !! k = Some n → 0 < n) →
  ∀ k n, counts' !! k = Some n → 0 < n.
Proof.
  revert counts. induction catalog_data as [|t ts IH]; intros counts H Hpos;
    simpl in H.
  - by injection H as <-.
  - bind_inv H. apply count_values_foldl in E1 as (ks & _ & ->).
    apply (IH _ H). by apply foldl_increment_positive.
Qed.

Lemma foldl_increment_dom ks counts k :
  is_Some (foldl increment counts ks !! k) ↔ is_Some (counts !! k) ∨ k ∈ ks.
Proof.
  revert counts. induction ks as [|k0 ks IH]; intros counts; simpl.
  - split; [by left | intros [?|Hin]; [done | by apply elem_of_nil in Hin]].
  - rewrite IH. unfold increment. rewrite elem_of_cons.
    destruct (decide (k0 = k)) as [->|Hne].
    + rewrite lookup_insert_eq. split; [intros _; right; by left | by left].
    + rewrite lookup_insert_ne by done.
      split; [intros [?|?]; auto | intros [?|[?|?]]; auto; congruence].
Qed.

(** X8: the frequency map the report gives for categories (and, under
    [tags], for tags) holds exactly the values listed by some entry, each
    with the number of times it is listed over the whole catalog, which is
    at least one; an entry without the key adds nothing. *)
Theorem aggregate_counts_listed_values field catalog_data counts k :
  aggregate field catalog_data ∅ = Ok counts →
  counts !! k
  = if decide (0 < occurrences field k catalog_data)
    then Some (occurrences field k catalog_data)
    else None.
Proof.
  intros H.
  pose proof (aggregate_counts_occurrences _ _ _ _ k H) as Hocc.
  rewrite lookup_empty in Hocc. simpl in Hocc.
  pose proof (aggregate_positive _ _ _ _ H) as Hpos.
  destruct (counts !! k) as [n|] eqn:Hk; simpl in Hocc.
  - assert (0 < n) by (eapply Hpos; [|done]; intros ? ?; by rewrite lookup_empty).
    rewrite decide_True by lia. f_equal. lia.
  - rewrite decide_False by lia. done.
Qed.

Lemma aggregate_counts_listed_values_witness :
  _aggregate_categories example_entries = aggregate "categories" example_entries ∅ ∧
  ∀ k, (<[KStr "A" := 2]> (<[KStr "B" := 2]> {[ KStr "C" := 1 ]}) : gmap pykey Z) !! k
       = if decide (0 < occurrences "categories" k example_entries)
         then Some (occurrences "categories" k example_entries)
         else None.
Proof.
  split; [reflexivity|]. intros k.
  apply (aggregate_counts_listed_values "categories" example_entries).
  vm_compute. reflexivity.
Defined.

Lemma count_capability_bounds cap catalog_data n :
  count_capability cap catalog_data = Ok n →
  (0 ≤ n ≤ Z.of_nat (length catalog_data))%Z.
Proof.
  revert n. induction catalog_data as [|t ts IH]; intros n H; simpl in H.
  - injection H as <-. simpl. lia.
  - bind_inv H. injection H as <-. specialize (IH _ E1).
    rewrite length_cons. destruct (truthy a0); simpl; lia.
Qed.

(** X9: in a generated report every counter of the summary lies between
    zero and the number of templates, and the two template counts (of the
    report and of its summary) are the same number. *)
Theorem summary_counters_bounded now catalog_data r :
  generate_catalog_report now catalog_data = Ok r →
  summary_get "total_templates" (summary r) = Some (total_templates r) ∧
  ∀ name n, (name, n) ∈ summary r → (0 ≤ n ≤ total_templates r)%Z.
Proof.
  intros H. unfold generate_catalog_report in H. bind_inv H.
  injection H as <-. simpl. split; [reflexivity|].
  intros name n Hin.
  repeat (apply elem_of_cons in Hin as [[= -> ->]|Hin]);
    try (by apply elem_of_nil in Hin);
    try (eapply count_capability_bounds; eassumption).
  lia.
Qed.

Lemma summary_counters_bounded_witness :
  ∃ r, generate_catalog_report "2025-01-01T00:00:00"
         [sample_entry; entry_with_capability "modular" true] = Ok r ∧
       summary_get "total_templates" (summary r) = Some (total_templates r) ∧
       ∀ name n, (name, n) ∈ summary r → (0 ≤ n ≤ total_templates r)%Z.
Proof.
  destruct (generate_catalog_report "2025-01-01T00:00:00"
              [sample_entry; entry_with_capability "modular" true])
    as [r|e] eqn:Hr; [|vm_compute in Hr; discriminate Hr].
  exists r. split; [reflexivity|].
  exact (summary_counters_bounded _ _ r Hr).
Defined.









(** ** The [report] command *)

Lemma for_each_first_raise {A B} (f : A → result B) good x rest e :
  Forall (λ a, returns (f a)) good →
  f x = Raise e →
  for_each f (good ++ x :: rest) = Raise e.
Proof.
  intros Hgood Hx. induction Hgood as [|a good [b Hb] _ IH]; simpl.
  - by rewrite Hx.
  - by rewrite Hb, IH.
Qed.

(** X19: the [report] command does not isolate a record the converter
    rejects.  When the first such record comes after records that convert,
    the command raises the converter's exception for it and makes no report,
    although the directory was cataloged to the end. *)
Theorem report_command_aborts_on_rejected_record
    go_parser_path resolve engine json_load rglob container_repr set_iter
    path now w good m rest e :
  successes (outcomes go_parser_path resolve engine json_load
               (rglob path "*.aep" (files w)) w)
  = (good ++ m :: rest)%list →
  Forall (λ x, returns (convert_to_mobot_format container_repr set_iter x)) good →
  convert_to_mobot_format container_repr set_iter m = Raise e →
  report_command go_parser_path resolve engine json_load rglob
    container_repr set_iter path now w
  = (Raise e,
     (catalog_directory go_parser_path resolve engine json_load rglob
        path "*.aep" w).2).
Proof.
  intros Hs Hgood Hm. unfold report_command, catalog_directory.
  destruct (catalog_files_outcomes go_parser_path resolve engine json_load
              (rglob path "*.aep" (files w)) [] w) as [Hr _].
  destruct (catalog_files _ _ _ _ _ _ _) as [data w1]. simpl in *.
  rewrite Hr, Hs. unfold convert_all.
  by rewrite (for_each_first_raise _ _ _ _ e Hgood Hm).
Qed.

Lemma report_command_aborts_on_rejected_record_witness :
  let w := on_disk [("a.aep", "sample"); ("b.aep", "{}"); ("c.aep", "alt")] in
  let aep_files := ["a.aep"; "b.aep"; "c.aep"] in
  successes (outcomes "parser" strip_dot echo_engine decode aep_files w)
  = ([sample_raw] ++ JDict [] :: [sample_with (all_flags false)])%list ∧
  Forall (λ x, returns (convert_to_mobot_format no_repr set_forward x)) [sample_raw] ∧
  convert_to_mobot_format no_repr set_forward (JDict [])
  = Raise (KeyError "file_path") ∧
  report_command "parser" strip_dot echo_engine decode (found aep_files)
    no_repr set_forward "templates" "2025-01-01T00:00:00" w
  = (Raise (KeyError "file_path"),
     (catalog_directory "parser" strip_dot echo_engine decode (found aep_files)
        "templates" "*.aep" w).2).
Proof.
  assert (Forall (λ x, returns (convert_to_mobot_format no_repr set_forward x))
            [sample_raw]) as Hgood.
  { repeat constructor. by exists sample_entry. }
  split; [vm_compute; reflexivity|]. split; [exact Hgood|].
  split; [reflexivity|].
  apply (report_command_aborts_on_rejected_record "parser" strip_dot
           echo_engine decode (found ["a.aep"; "b.aep"; "c.aep"])
           no_repr set_forward "templates" "2025-01-01T00:00:00"
           (on_disk [("a.aep", "sample"); ("b.aep", "{}"); ("c.aep", "alt")])
           [sample_raw] (JDict []) [sample_with (all_flags false)]
           (KeyError "file_path"));
    [vm_compute; reflexivity | exact Hgood | reflexivity].
Defined.

Lemma well_formed_converts container_repr set_iter metadata :
  well_formed metadata = true →
  returns (convert_to_mobot_format container_repr set_iter metadata).
Proof.
  intros Hwf.
  destruct (well_formed_reads container_repr _ Hwf)
    as (d & cs & ts & ms & os & es & -> & Hk & Hc & Ht & Hm & Ho & He
        & [n Hn] & [caps Hcaps] & [tl Htl] & [ph Hph] & [us Hus]
        & [ef Hef] & [rs Hrs]).
  destruct (has_keys_getitem _ _ "file_path" Hk) as [v1 E1];
    [repeat first [by left | right]|].
  destruct (has_keys_getitem _ _ "file_name" Hk) as [v2 E2];
    [repeat first [by left | right]|].
  destruct (has_keys_getitem _ _ "parsed_at" Hk) as [v3 E3];
    [repeat first [by left | right]|].
  destruct (has_keys_getitem _ _ "categories" Hk) as [v4 E4];
    [repeat first [by left | right]|].
  destruct (has_keys_getitem _ _ "tags" Hk) as [v5 E5];
    [repeat first [by left | right]|].
  destruct (has_keys_getitem _ _ "bit_depth" Hk) as [v6 E6];
    [repeat first [by left | right]|].
  destruct (has_keys_getitem _ _ "expression_engine" Hk) as [v7 E7];
    [repeat first [by left | right]|].
  eexists. unfold convert_to_mobot_format. repeat ok_step. reflexivity.
Qed.

Lemma convert_entry_ok container_repr set_iter d entry :
  convert_to_mobot_format container_repr set_iter (JDict d) = Ok entry →
  listing_ok "categories" d = true →
  listing_ok "tags" d = true →
  entry_ok entry = true.
Proof.
  intros H Hc Ht. unfold convert_to_mobot_format in H. bind_inv H.
  injection H as <-.
  repeat match goal with
  | E : getitem (JDict d) _ = Ok _ |- _ =>
      apply getitem_Ok in E as (? & [= <-] & E)
  end.
  unfold listing_ok in *.
  repeat match goal with
  | E : assoc ?k d = Some _, H : context [assoc ?k d] |- _ => rewrite E in H
  end.
  simpl in *. unfold listing_ok. simpl. by rewrite Hc, Ht.
Qed.

Lemma convert_flag_set container_repr set_iter metadata entry k flag :
  convert_to_mobot_format container_repr set_iter metadata = Ok entry →
  (k, flag) ∈ capability_flags →
  flag_set k entry = raw_flag flag metadata.
Proof.
  intros H Hin. unfold convert_to_mobot_format in H. bind_inv H.
  injection H as <-.
  match goal with
  | E : for_each (capability _) _ = Ok ?c |- _ =>
      destruct (capabilities_Ok _ _ _ E) as [Hk Hv]
  end.
  destruct (Hv _ _ Hin) as (rc & v & Hrc & Hflag & Hkv).
  unfold raw_flag. rewrite Hrc. simpl. rewrite Hflag.
  unfold flag_set. simpl.
  rewrite (assoc_NoDup k v); [done| |done].
  rewrite Hk. apply capability_keys_NoDup.
Qed.

Lemma entries_with_records container_repr set_iter k flag catalog_data entries :
  (k, flag) ∈ capability_flags →
  Forall2 (λ m e, convert_to_mobot_format container_repr set_iter m = Ok e)
    catalog_data entries →
  entries_with k entries = records_with flag catalog_data.
Proof.
  intros Hin H. unfold entries_with, records_with. f_equal.
  induction H as [|m e ms es Hme _ IH]; [done|].
  rewrite !filter_cons, (convert_flag_set _ _ _ _ _ _ Hme Hin).
  destruct (decide (raw_flag flag m = true)); simpl; by rewrite IH.
Qed.

(** X20: when every record the batch parsed is complete, with categories
    and tags that can be counted, the [report] command makes a report: it
    has one template for each parsed file, failures left out, and its
    summary counts the parsed records whose [has_text_replacement],
    [has_image_replacement] and [is_modular] flags hold. *)
Theorem report_command_counts_parsed_records
    go_parser_path resolve engine json_load rglob container_repr set_iter
    path now w :
  let parsed := successes (outcomes go_parser_path resolve engine json_load
                             (rglob path "*.aep" (files w)) w) in
  Forall (λ m, reportable m = true) parsed →
  ∃ r,
    (report_command go_parser_path resolve engine json_load rglob
       container_repr set_iter path now w).1 = Ok r ∧
    length (templates r) = length parsed ∧
    summary r =
      [ ("total_templates", Z.of_nat (length parsed));
        ("with_text_replacement", records_with "has_text_replacement" parsed);
        ("with_image_replacement", records_with "has_image_replacement" parsed);
        ("modular_templates", records_with "is_modular" parsed) ].
Proof.
  simpl. intros Hall. unfold report_command, catalog_directory.
  destruct (catalog_files_outcomes go_parser_path resolve engine json_load
              (rglob path "*.aep" (files w)) [] w) as [Hr _].
  destruct (catalog_files _ _ _ _ _ _ _) as [data w1]. simpl in *.
  subst data.
  set (parsed := successes _) in *.
  assert (∃ entries,
            convert_all container_repr set_iter parsed = Ok entries ∧
            Forall2 (λ m e, convert_to_mobot_format container_repr set_iter m
                            = Ok e) parsed entries ∧
            Forall (λ t, entry_ok t = true) entries)
    as (entries & Hconv & Hrel & Hok).
  { clearbody parsed. unfold convert_all.
    induction Hall as [|m ms Hm _ (es & Hes & Hrel & Hok)].
    - exists []. by repeat split; constructor.
    - apply andb_prop in Hm as [Hwf Hl].
      destruct m as [| | | | |d]; try discriminate.
      apply andb_prop in Hl as [Hc Ht].
      destruct (well_formed_converts container_repr set_iter _ Hwf)
        as [e He].
      exists (e :: es). simpl. rewrite He, Hes. simpl.
      split; [done|]. split; [by constructor|].
      constructor; [|done]. by eapply convert_entry_ok. }
  rewrite Hconv. cbn [mbind result_bind]. unfold generate_catalog_report.
  rewrite !count_capability_spec by done. cbn [mbind result_bind].
  destruct (aggregate_returns "categories" entries ∅) as [cats Hc]; auto.
  destruct (aggregate_returns "tags" entries ∅) as [tgs Ht]; auto.
  unfold _aggregate_categories, _aggregate_tags. rewrite Hc, Ht.
  cbn [mbind result_bind]. eexists. split; [reflexivity|]. simpl.
  pose proof (Forall2_length _ _ _ Hrel) as Hlen.
  split; [done|]. rewrite <- Hlen.
  rewrite (entries_with_records _ _ "text_replacement" "has_text_replacement"
             _ _ ltac:(unfold capability_flags; repeat first [by left | right]) Hrel).
  rewrite (entries_with_records _ _ "image_replacement" "has_image_replacement"
             _ _ ltac:(unfold capability_flags; repeat first [by left | right]) Hrel).
  rewrite (entries_with_records _ _ "modular" "is_modular"
             _ _ ltac:(unfold capability_flags; repeat first [by left | right]) Hrel).
  reflexivity.
Qed.

Lemma report_command_counts_parsed_records_witness :
  let w := on_disk [("a.aep", "sample"); ("b.aep", "crash"); ("c.aep", "alt")] in
  let aep_files := ["a.aep"; "b.aep"; "c.aep"] in
  let parsed := successes (outcomes "parser" strip_dot echo_engine decode
                             aep_files w) in
  Forall (λ m, reportable m = true) parsed ∧
  ∃ r,
    (report_command "parser" strip_dot echo_engine decode (found aep_files)
       no_repr set_forward "templates" "2025-01-01T00:00:00" w).1 = Ok r ∧
    length (templates r) = length parsed ∧
    summary r =
      [ ("total_templates", Z.of_nat (length parsed));
        ("with_text_replacement", records_with "has_text_replacement" parsed);
        ("with_image_replacement", records_with "has_image_replacement" parsed);
        ("modular_templates", records_with "is_modular" parsed) ].
Proof.
  assert (Forall (λ m, reportable m = true)
            (successes (outcomes "parser" strip_dot echo_engine decode
               ["a.aep"; "b.aep"; "c.aep"]
               (on_disk [("a.aep", "sample"); ("b.aep", "crash");
                         ("c.aep", "alt")])))) as Hall.
  { vm_compute. repeat constructor. }
  split; [exact Hall|].
  exact (report_command_counts_parsed_records "parser" strip_dot echo_engine
           decode (found ["a.aep"; "b.aep"; "c.aep"]) no_repr set_forward
           "templates" "2025-01-01T00:00:00"
           (on_disk [("a.aep", "sample"); ("b.aep", "crash"); ("c.aep", "alt")])
           Hall).
Defined.

(** ** The engine invocation on the stand-in engine, further *)

Lemma parse_aep_missing_file_precedes_cache_witness :
  let w := with_cache {[ "gone.aep" := sample_raw ]} (on_disk []) in
  (strip_dot "./gone.aep" ∉ dom (files w)) ∧
  parse_aep "parser" strip_dot echo_engine decode "./gone.aep" true w
  = (Raise (FileNotFoundError ("AEP file not found: " +:+ strip_dot "./gone.aep")), w).
Proof.
  assert (strip_dot "./gone.aep"
          ∉ dom (files (with_cache {[ "gone.aep" := sample_raw ]} (on_disk []))))
    as Hout.
  { apply not_elem_of_dom. reflexivity. }
  split; [exact Hout|].
  exact (parse_aep_missing_file_precedes_cache "parser" strip_dot echo_engine
           decode "./gone.aep" true _ Hout).
Defined.

Lemma parse_aep_bypasses_cache_witness :
  let w := with_cache {[ "a.aep" := JDict [] ]} (on_disk [("a.aep", "sample")]) in
  let out := parse_aep "parser" strip_dot echo_engine decode "a.aep" false w in
  strip_dot "a.aep" ∈ dom (files w) ∧
  cache out.2 = cache w ∧
  invocations out.2
  = (invocations w ++ [argv_for "parser" (strip_dot "a.aep") (tmp_name w)])%list.
Proof.
  assert (strip_dot "a.aep"
          ∈ dom (files (with_cache {[ "a.aep" := JDict [] ]}
                          (on_disk [("a.aep", "sample")])))) as Hin.
  { apply elem_of_dom. by eexists. }
  split; [exact Hin|].
  exact (parse_aep_bypasses_cache "parser" strip_dot echo_engine decode
           "a.aep" _ Hin).
Defined.

Lemma parse_aep_exit_code_decides_witness :
  let w := on_disk [("b.aep", "crash")] in
  strip_dot "b.aep" ∈ dom (files w) ∧
  cache w !! strip_dot "b.aep" = None ∧
  echo_engine (argv_for "parser" (strip_dot "b.aep") (tmp_name w))
    (<[tmp_name w := ""]> (files w))
  = (Exited 1 "" "cannot read project", <[tmp_name w := ""]> (files w)) ∧
  (parse_aep "parser" strip_dot echo_engine decode "b.aep" true w).1
  = Raise (RuntimeError "Go parser failed: cannot read project").
Proof.
  assert (strip_dot "b.aep" ∈ dom (files (on_disk [("b.aep", "crash")]))) as Hin.
  { apply elem_of_dom. by eexists. }
  split; [exact Hin|]. split; [reflexivity|]. split; [reflexivity|].
  exact (parse_aep_exit_code_decides "parser" strip_dot echo_engine decode
           "b.aep" true (on_disk [("b.aep", "crash")]) 1 "" "cannot read project"
           _ Hin eq_refl eq_refl).
Defined.

Lemma echo_engine_writes_output_only aep tmp (fs : gmap string string) k :
  k ≠ tmp → (echo_engine (argv_for "parser" aep tmp) fs).2 !! k = fs !! k.
Proof.
  intros Hne. unfold echo_engine, argv_for.
  repeat case_match; simpl; rewrite ?lookup_insert_ne by done; done.
Qed.

Lemma parse_aep_restores_disk_witness :
  let w := on_disk [("a.aep", "sample"); ("b.aep", "crash")] in
  (∀ aep tmp (fs : gmap string string) k,
      k ≠ tmp → (echo_engine (argv_for "parser" aep tmp) fs).2 !! k = fs !! k) ∧
  files (parse_aep "parser" strip_dot echo_engine decode "a.aep" true w).2
  = files w.
Proof.
  split; [exact echo_engine_writes_output_only|].
  exact (parse_aep_restores_disk "parser" strip_dot echo_engine decode "a.aep"
           true _ echo_engine_writes_output_only).
Defined.

Lemma catalog_directory_caches_records_witness :
  let w := on_disk [("a.aep", "sample"); ("b.aep", "crash")] in
  let aep_files := ["./a.aep"; "b.aep"] in
  ("./a.aep", Ok sample_raw)
  ∈ outcomes "parser" strip_dot echo_engine decode aep_files w ∧
  cache (catalog_directory "parser" strip_dot echo_engine decode
           (found aep_files) "templates" "*.aep" w).2 !! strip_dot "./a.aep"
  = Some sample_raw.
Proof.
  assert (("./a.aep", Ok sample_raw)
          ∈ outcomes "parser" strip_dot echo_engine decode ["./a.aep"; "b.aep"]
              (on_disk [("a.aep", "sample"); ("b.aep", "crash")])) as Hin.
  { vm_compute. by left. }
  split; [exact Hin|].
  exact (catalog_directory_caches_records "parser" strip_dot echo_engine decode
           (found ["./a.aep"; "b.aep"]) "templates" "*.aep" _ _ _ Hin).
Defined.

(** ** The engine locator on a stand-in build *)

Lemma find_go_parser_first_existing_witness :
  let w := on_disk [("/r/catalog/bin/aep_parser", "ELF"); ("/r/bin/aep_parser", "ELF")] in
  possible_paths "/r/catalog" "/r" !! 1%nat = Some "/r/catalog/bin/aep_parser" ∧
  "/r/catalog/bin/aep_parser" ∈ dom (files w) ∧
  (∀ j p, (j < 1)%nat → possible_paths "/r/catalog" "/r" !! j = Some p →
          p ∉ dom (files w)) ∧
  _find_go_parser "/r/catalog" "/r" "package main" (go_exits 0) mkdir_ok
    exit_status w
  = (Ok "/r/catalog/bin/aep_parser", w).
Proof.
  set (w := on_disk [("/r/catalog/bin/aep_parser", "ELF");
                     ("/r/bin/aep_parser", "ELF")]).
  assert ("/r/catalog/bin/aep_parser" ∈ dom (files w)) as Hin.
  { apply elem_of_dom. by eexists. }
  assert (∀ j p, (j < 1)%nat → possible_paths "/r/catalog" "/r" !! j = Some p →
                 p ∉ dom (files w)) as Hfirst.
  { intros [|j] p Hj; [|lia]. intros [= <-]. apply not_elem_of_dom. reflexivity. }
  split; [reflexivity|]. split; [exact Hin|]. split; [exact Hfirst|].
  exact (find_go_parser_first_existing "/r/catalog" "/r" "package main"
           (go_exits 0) mkdir_ok exit_status w 1 _ eq_refl Hin Hfirst).
Defined.

Lemma build_go_parser_follows_exit_status_witness :
  let w := on_disk [("/r/catalog/cmd/parser/main.go", "package old")] in
  let build := _build_go_parser "/r/catalog" "/r" "package main" (go_exits 1)
                 mkdir_ok exit_status w in
  (∀ text, files w !! parser_main "/r/catalog" = Some text →
           with_source "/r/catalog" "package main" (files w)
             !! parser_main "/r/catalog" = Some text) ∧
  build.1 = Raise (RuntimeError "Failed to build Go parser: exit status 1") ∧
  files build.2 !! parser_main "/r/catalog" = Some "package old" ∧
  invocations build.2
  = (invocations w ++ [build_argv "/r/catalog"])%list ∧
  cache build.2 = cache w.
Proof.
  set (w := on_disk [("/r/catalog/cmd/parser/main.go", "package old")]).
  pose proof (build_go_parser_follows_exit_status "/r/catalog" "/r"
                "package main" (go_exits 1) mkdir_ok exit_status w 1 "" ""
                (<[output_path "/r/catalog" := "ELF"]> (files w))
                (λ _, eq_refl) eq_refl eq_refl) as (H1 & H2 & H3 & H4 & H5).
  split; [exact H1|]. split; [exact H2|]. split; [by rewrite H3|].
  split; [exact H4 | exact H5].
Defined.

Lemma init_parser_path_witness :
  let w := on_disk [("/r/aep_parser", "ELF")] in
  let made := __init__ "/r/catalog" "/r" "package main" (go_exits 0) mkdir_ok
                exit_status None w in
  made.1 = Ok "/r/aep_parser" ∧
  cache made.2 = ∅ ∧
  (((None : option string) = Some "/r/aep_parser" ∧ "/r/aep_parser" ≠ "")
   ∨ "/r/aep_parser" ∈ possible_paths "/r/catalog" "/r").
Proof.
  split; [reflexivity|].
  apply (init_parser_path "/r/catalog" "/r" "package main" (go_exits 0)
           mkdir_ok exit_status None (on_disk [("/r/aep_parser", "ELF")])).
  reflexivity.
Defined.

Lemma find_go_parser_again_witness :
  let find := _find_go_parser "/r/catalog" "/r" "package main" (go_exits 0)
                mkdir_ok exit_status in
  let first := find (on_disk []) in
  first.1 = Ok "/r/catalog/bin/aep_parser" ∧
  invocations first.2 = [build_argv "/r/catalog"] ∧
  "/r/catalog/bin/aep_parser" ∈ dom (files first.2) ∧
  ∃ p', find first.2 = (Ok p', first.2) ∧ p' ∈ dom (files first.2).
Proof.
  set (find := _find_go_parser "/r/catalog" "/r" "package main" (go_exits 0)
                 mkdir_ok exit_status).
  assert ("/r/catalog/bin/aep_parser" ∈ dom (files (find (on_disk [])).2)) as Hin.
  { apply elem_of_dom. by eexists. }
  split; [reflexivity|]. split; [reflexivity|]. split; [exact Hin|].
  apply (find_go_parser_again "/r/catalog" "/r" "package main" (go_exits 0)
           mkdir_ok exit_status (on_disk []) "/r/catalog/bin/aep_parser");
    [reflexivity | exact Hin].
Defined.

Lemma catalog_directory_again_witness :
  let w := on_disk [("a.aep", "sample"); ("c.aep", "alt")] in
  let aep_files := ["a.aep"; "c.aep"; "./a.aep"] in
  let catalog := catalog_directory "parser" strip_dot echo_engine decode
                   (found aep_files) "templates" "*.aep" in
  (∀ aep tmp (fs : gmap string string) k,
      k ≠ tmp → (echo_engine (argv_for "parser" aep tmp) fs).2 !! k = fs !! k) ∧
  failures (outcomes "parser" strip_dot echo_engine decode aep_files w) = [] ∧
  (catalog w).1 = [sample_raw; sample_with (all_flags false); sample_raw] ∧
  length (invocations (catalog w).2) = 2%nat ∧
  catalog (catalog w).2 = catalog w.
Proof.
  split; [exact echo_engine_writes_output_only|].
  split; [vm_compute; reflexivity|]. split; [vm_compute; reflexivity|].
  split; [vm_compute; reflexivity|].
  apply (catalog_directory_again "parser" strip_dot echo_engine decode
           (found ["a.aep"; "c.aep"; "./a.aep"]) "templates" "*.aep"
           (on_disk [("a.aep", "sample"); ("c.aep", "alt")])
           ["a.aep"; "c.aep"; "./a.aep"] echo_engine_writes_output_only eq_refl).
  vm_compute. reflexivity.
Defined.

(** ** A record without a capability flag *)

Lemma capabilities_missing_flag metadata caps k flag :
  getitem metadata "capabilities" = Ok (del_key flag (JDict caps)) →
  has_keys (capability_flags.*2) (JDict caps) = true →
  (k, flag) ∈ capability_flags →
  for_each (capability metadata) capability_flags = Raise (KeyError flag).
Proof.
  intros Hm Hkeys Hin.
  assert (NoDup (capability_flags.*2)) as Hnd
    by (apply (bool_decide_unpack _); by vm_compute).
  apply list_elem_of_split in Hin as (l1 & l2 & Heq).
  rewrite Heq in Hnd |- *. apply for_each_first_raise.
  - apply Forall_forall. intros [k' flag'] Hin'.
    unfold capability. rewrite Hm. cbn [mbind result_bind snd fst].
    rewrite getitem_del.
    assert (flag' ≠ flag) as Hne.
    { rewrite fmap_app, fmap_cons in Hnd. apply NoDup_app in Hnd as (_ & Hd & _).
      intros ->. apply (Hd flag); [|by left].
      apply list_elem_of_fmap. by exists (k', flag). }
    destruct (String.eqb_spec flag' flag); [done|].
    destruct (has_keys_getitem _ _ flag' Hkeys) as [v ->]; [|by eexists].
    rewrite Heq, fmap_app. apply elem_of_app. left.
    apply list_elem_of_fmap. by exists (k', flag').
  - unfold capability. rewrite Hm. cbn [mbind result_bind snd fst].
    rewrite getitem_del. by rewrite String.eqb_refl.
Qed.

(** X26: a record that is complete but for one of the seven capability
    flags makes the converter raise [KeyError] for that flag: the flags
    before it are read, the missing one is not taken for false. *)
Theorem convert_missing_flag_raises container_repr set_iter metadata caps k flag :
  well_formed metadata = true →
  getitem metadata "capabilities" = Ok (JDict caps) →
  (k, flag) ∈ capability_flags →
  convert_to_mobot_format container_repr set_iter
    (set_key "capabilities" (del_key flag (JDict caps)) metadata)
  = Raise (KeyError flag).
Proof.
  intros Hwf Hcaps' Hin.
  assert (has_keys (capability_flags.*2) (JDict caps) = true) as Hflags.
  { unfold well_formed in Hwf. do 6 (apply andb_prop in Hwf as [Hwf ?]).
    match goal with
    | F : field "capabilities" _ _ = true |- _ =>
        apply field_getitem in F as (c & Hc & F)
    end.
    rewrite Hcaps' in Hc. by injection Hc as <-. }
  destruct (well_formed_reads container_repr _ Hwf)
    as (d & cs & ts & ms & os & es & -> & Hk & Hc & Ht & Hm & Ho & He
        & [n Hn] & [caps0 Hcaps] & [tl Htl] & [ph Hph] & [us Hus]
        & [ef Hef] & [rs Hrs]).
  destruct (has_keys_getitem _ _ "file_path" Hk) as [v1 E1];
    [repeat first [by left | right]|].
  destruct (has_keys_getitem _ _ "file_name" Hk) as [v2 E2];
    [repeat first [by left | right]|].
  destruct (has_keys_getitem _ _ "parsed_at" Hk) as [v3 E3];
    [repeat first [by left | right]|].
  unfold convert_to_mobot_format. repeat set_step.
  rewrite (capabilities_missing_flag _ caps k flag); [done| |done..].
  by rewrite getitem_set.
Qed.

Lemma convert_missing_flag_raises_witness :
  well_formed sample_raw = true ∧
  getitem sample_raw "capabilities" = Ok (all_flags true) ∧
  ("modular", "is_modular") ∈ capability_flags ∧
  convert_to_mobot_format no_repr set_forward
    (set_key "capabilities" (del_key "is_modular" (all_flags true)) sample_raw)
  = Raise (KeyError "is_modular").
Proof.
  assert (("modular", "is_modular") ∈ capability_flags) as Hin
    by (unfold capability_flags; repeat first [by left | right]).
  split; [reflexivity|]. split; [reflexivity|]. split; [exact Hin|].
  exact (convert_missing_flag_raises no_repr set_forward sample_raw _
           "modular" "is_modular" eq_refl eq_refl Hin).
Defined.

Lemma parse_aep_bypass_keeps_stale_record_witness :
  let w := with_cache {[ "a.aep" := JDict [] ]} (on_disk [("a.aep", "sample")]) in
  let bypass := parse_aep "parser" strip_dot echo_engine decode "a.aep" false w in
  cache w !! strip_dot "a.aep" = Some (JDict []) ∧
  strip_dot "a.aep" ∈ dom (files w) ∧
  strip_dot "a.aep" ∈ dom (files bypass.2) ∧
  bypass.1 = Ok sample_raw ∧
  invocations bypass.2
  = (invocations w ++ [argv_for "parser" (strip_dot "a.aep") (tmp_name w)])%list ∧
  parse_aep "parser" strip_dot echo_engine decode "a.aep" true bypass.2
  = (Ok (JDict []), bypass.2).
Proof.
  set (w := with_cache {[ "a.aep" := JDict [] ]} (on_disk [("a.aep", "sample")])).
  assert (strip_dot "a.aep" ∈ dom (files w)) as Hin.
  { apply elem_of_dom. by eexists. }
  assert (strip_dot "a.aep"
          ∈ dom (files (parse_aep "parser" strip_dot echo_engine decode
                          "a.aep" false w).2)) as Hin'.
  { apply elem_of_dom. by eexists. }
  split; [reflexivity|]. split; [exact Hin|]. split; [exact Hin'|].
  split; [reflexivity|].
  exact (parse_aep_bypass_keeps_stale_record "parser" strip_dot echo_engine
           decode "a.aep" w (JDict []) eq_refl Hin Hin').
Defined.
